(** * Job-Advertising-Scraper: the collection pipeline

    A shallow embedding of [src/collector.py], [src/scraper.py],
    [src/cleaner.py] and [src/exporter.py], and the properties of the
    pipeline they implement: the search loop, consolidation and
    deduplication, record cleaning and the two-format export.

    Conventions.
    - A pandas [DataFrame] is a list of column names and a list of rows of
      Python objects ([frame]): the cells as [iloc] and [to_dict] read them.
      The dtype of a column is not part of a [frame].  Where pandas gives a
      column a new dtype and converts its cells ([pd.concat],
      [pd.DataFrame(records)], [where]), the converted cell is a variable
      of the enclosing section; where the answer of pandas depends on the
      cells only (duplicates, missing values, comparison with a string) it
      is defined here, as of pandas 1.5 and later.
    - The cells are the scalars of a posting (text, numbers, booleans,
      dates, missing-value markers), lists, tuples and dicts of text, and
      opaque objects of other types.  What pandas raises on tables whose
      column names repeat is modelled ([concat_error], [clean_error]), and
      and what [drop_duplicates] raises on a list or a dict
      ([drop_duplicates_error]).  The functions of the tables themselves
      ([pd_concat], [drop_duplicates], [clean]) are what pandas and the
      cleaner return when they raise nothing; the run raises what the error
      functions give.
    - A Python [dict] is an insertion-ordered association list with unique
      keys ([dict]); [record[key] = v] is [dict_set].
    - Python floats are IEEE-754 values ([spec_float]); [x != x] is
      [negb (SFeqb x x)].
    - Python strings are lists of code points below 256 ([string]).
    - What lies outside the repository (the job-board provider, the disk,
      the clock and [time.sleep], the decimal rendering of a float) is a
      variable of the enclosing section. *)

From Stdlib Require Import ZArith NArith Ascii String.
From Stdlib Require Import SpecFloat.
From stdpp Require Import base list strings gmap.

Local Open Scope string_scope.
Local Open Scope list_scope.

(** ** Python strings *)

(** [str.isspace] on one code point below 256. *)
Definition isspace (c : ascii) : bool :=
  let n := N_of_ascii c in
  ((9 <=? n) && (n <=? 13) || (28 <=? n) && (n <=? 32)
   || (n =? 133) || (n =? 160))%N.

(** [str.lower] on one code point below 256: A-Z and the Latin-1 capitals. *)
Definition lower_char (c : ascii) : ascii :=
  let n := N_of_ascii c in
  if ((65 <=? n) && (n <=? 90)
      || (192 <=? n) && (n <=? 222) && negb (n =? 215))%N
  then ascii_of_N (n + 32) else c.

Fixpoint lower (s : string) : string :=
  match s with
  | EmptyString => EmptyString
  | String c s' => String (lower_char c) (lower s')
  end.

Fixpoint lstrip_chars (l : list ascii) : list ascii :=
  match l with
  | [] => []
  | c :: l' => if isspace c then lstrip_chars l' else l
  end.

Definition rstrip_chars (l : list ascii) : list ascii :=
  rev (lstrip_chars (rev l)).

(** [str.strip()]: whitespace removed at both ends. *)
Definition strip (s : string) : string :=
  string_of_list_ascii (rstrip_chars (lstrip_chars (list_ascii_of_string s))).

(** ** Python floats and their [str] *)

(** The characters of the decimal rendering of a finite float
    ([float.__repr__]: digits, a point, an exponent mark and signs). *)
Variant repr_char :=
  | R0 | R1 | R2 | R3 | R4 | R5 | R6 | R7 | R8 | R9
  | Rpoint | Rexp | Rplus | Rminus.

Definition repr_ascii (r : repr_char) : ascii :=
  match r with
  | R0 => "0" | R1 => "1" | R2 => "2" | R3 => "3" | R4 => "4"
  | R5 => "5" | R6 => "6" | R7 => "7" | R8 => "8" | R9 => "9"
  | Rpoint => "." | Rexp => "e" | Rplus => "+" | Rminus => "-"
  end%char.

(** ** Cell values *)

(** The Python objects a cell of a job table can hold.  [VDate] is a
    [pd.Timestamp], [datetime] or [date] without a time zone, kept as its
    [isoformat()] text, [pd.NaT] being [VDate "NaT"]; [VNA] is [pd.NA], and
    any other object that [pd.isna] holds for and that is neither [None],
    nor a float, nor [pd.NaT]; [VList], [VTuple] and [VDict] are a list, a
    tuple and a dict of strings; [VObj] is an object of any other type, one
    that [json] does not encode by itself and that [pd.isna] does not hold
    for, kept as the text of its type and its identity. *)
Inductive value :=
  | VNone
  | VBool (b : bool)
  | VInt (z : Z)
  | VFloat (f : spec_float)
  | VStr (s : string)
  | VDate (iso : string)
  | VNA
  | VObj (ty : string) (addr : N)
  | VList (items : list string)
  | VTuple (items : list string)
  | VDict (items : list (string * string)).

#[global] Instance spec_float_eq_dec : EqDecision spec_float.
Proof. solve_decision. Defined.

#[global] Instance value_eq_dec : EqDecision value.
Proof. solve_decision. Defined.

(** ** Python dicts *)

Definition dict := list (string * value).

Fixpoint dict_get (k : string) (d : dict) : option value :=
  match d with
  | [] => None
  | (k', v) :: d' => if decide (k = k') then Some v else dict_get k d'
  end.

(** [d[k] = v]: overwrite in place, or append a new key. *)
Fixpoint dict_set (k : string) (v : value) (d : dict) : dict :=
  match d with
  | [] => [(k, v)]
  | (k', v') :: d' =>
      if decide (k = k') then (k', v) :: d' else (k', v') :: dict_set k v d'
  end.

Definition dict_keys (d : dict) : list string := d.*1.

(** The dict with the same keys in the same order and [f] on every value. *)
Definition map_values (f : value → value) (d : dict) : dict :=
  prod_map id f <$> d.

(** ** pandas tables *)

Record frame := Frame { columns : list string; rows : list (list value) }.

#[global] Instance frame_eq_dec : EqDecision frame.
Proof. solve_decision. Defined.

(** The float NaN, pandas' filler for a missing cell. *)
Definition nan : value := VFloat S754_nan.

(** Cell [j] of a row; a row shorter than the schema reads as missing. *)
Definition cell (row : list value) (j : nat) : value := default nan (row !! j).

(** A row cut or padded to [n] cells. *)
Definition fit (n : nat) (row : list value) : list value := cell row <$> seq 0 n.

(** [len(df)] *)
Definition frame_len (df : frame) : nat := length (rows df).

(** [df.empty]: some axis has length 0. *)
Definition frame_empty (df : frame) : bool :=
  bool_decide (columns df = []) || bool_decide (rows df = []).

(** [c in df.columns] *)
Definition has_column (c : string) (df : frame) : bool :=
  bool_decide (c ∈ columns df).

Fixpoint index_of (c : string) (cols : list string) : option nat :=
  match cols with
  | [] => None
  | c' :: cols' => if decide (c = c') then Some 0 else S <$> index_of c cols'
  end.

(** [df[c]] read on one row; a column that does not exist reads as missing
    (used through [reindex] only). *)
Definition cell_of (df : frame) (row : list value) (c : string) : value :=
  match index_of c (columns df) with
  | Some j => cell row j
  | None => nan
  end.

(** [df[c] = v]: a constant column, overwritten in place or appended. *)
Definition set_column (c : string) (v : value) (df : frame) : frame :=
  let n := length (columns df) in
  match index_of c (columns df) with
  | Some j => Frame (columns df) ((λ row, <[j := v]> (fit n row)) <$> rows df)
  | None => Frame (columns df ++ [c]) ((λ row, fit n row ++ [v]) <$> rows df)
  end.

(** Names added to [acc] in order of first appearance. *)
Definition merge_names (acc names : list string) : list string :=
  foldl (λ a c, if decide (c ∈ a) then a else a ++ [c]) acc names.

(** [dict(items)] *)
Definition dict_of_items (items : list (string * value)) : dict :=
  foldl (λ d kv, dict_set kv.1 kv.2 d) [] items.

(** [df.to_dict(orient='records')]: one fresh dict per row. *)
Definition to_dict (df : frame) : list dict :=
  (λ row, dict_of_items (zip (columns df) (fit (length (columns df)) row)))
    <$> rows df.

(** The keys of [records] in order of first appearance: the columns of
    [pd.DataFrame(records)]. *)
Definition records_columns (rs : list dict) : list string :=
  foldl (λ acc d, merge_names acc (dict_keys d)) [] rs.

(** The union of the columns of the tables, in order of first appearance. *)
Definition union_columns (dfs : list frame) : list string :=
  foldl (λ acc df, merge_names acc (columns df)) [] dfs.

(** [df.reindex(columns=cols)] on the rows: a column [df] lacks is filled
    with NaN. *)
Definition reindex (cols : list string) (df : frame) : list (list value) :=
  (λ row, cell_of df row <$> cols) <$> rows df.

(** All tables have the columns of the first, in its order. *)
Definition same_columns (dfs : list frame) : bool :=
  match dfs with
  | [] => true
  | df :: dfs' => forallb (λ df', bool_decide (columns df' = columns df)) dfs'
  end.

(** The columns of [pd.concat(dfs)]: the columns of the tables when they
    all have the same, their union otherwise. *)
Definition concat_columns (dfs : list frame) : list string :=
  if same_columns dfs
  then match dfs with df :: _ => columns df | [] => [] end
  else union_columns dfs.

(** The rows of [pd.concat(dfs, ignore_index=True)] before the columns get
    their dtype: the rows of the tables in order, on the columns of the
    result. *)
Definition concat_rows (dfs : list frame) : list (list value) :=
  let cols := concat_columns dfs in
  if same_columns dfs
  then dfs ≫= λ df, fit (length cols) <$> rows df
  else dfs ≫= reindex cols.

(** *** Duplicates *)

(** The number that a bool, an int or a finite float is: [m * 2 ^ e]. *)
Definition number (v : value) : option (Z * Z) :=
  match v with
  | VBool b => Some (if b then 1 else 0, 0)%Z
  | VInt z => Some (z, 0%Z)
  | VFloat (S754_zero _) => Some (0, 0)%Z
  | VFloat (S754_finite s m e) => Some (if s then Zneg m else Zpos m, e)
  | _ => None
  end.

(** [pd.isna] on one cell. *)
Definition isna (v : value) : bool :=
  match v with
  | VNone | VNA | VFloat S754_nan => true
  | VDate iso => bool_decide (iso = "NaT")
  | _ => false
  end.

Definition notna (v : value) : bool := negb (isna v).

(** What a hash table of pandas holds for a cell.  Python objects are
    looked up by [==], with every NaN equal to every NaN: [None], NaN,
    [pd.NA] and [pd.NaT] are four different keys, numbers are one key when
    they are equal whatever their type (kept as an odd mantissa times a
    power of two), a dict is its mapping, and an opaque object is itself.
    [KMissing] is the one label [factorize] gives every missing value. *)
Inductive key :=
  | KNone
  | KNaN
  | KNA
  | KMissing
  | KNum (m e : Z)
  | KInf (neg : bool)
  | KStr (s : string)
  | KDate (iso : string)
  | KObj (ty : string) (addr : N)
  | KList (items : list string)
  | KTuple (items : list string)
  | KDict (items : gmap string string).

#[global] Instance key_eq_dec : EqDecision key.
Proof. solve_decision. Defined.

Fixpoint strip_twos (m : positive) (e : Z) : positive * Z :=
  match m with
  | xO m' => strip_twos m' (e + 1)%Z
  | _ => (m, e)
  end.

(** The number [m * 2 ^ e] with an odd mantissa. *)
Definition canonical (m e : Z) : key :=
  match m with
  | Z0 => KNum 0 0
  | Zpos p => let '(p', e') := strip_twos p e in KNum (Zpos p') e'
  | Zneg p => let '(p', e') := strip_twos p e in KNum (Zneg p') e'
  end.

(** The key of a cell in the hash table of [Series.duplicated]. *)
Definition object_key (v : value) : key :=
  match number v with
  | Some (m, e) => canonical m e
  | None =>
      match v with
      | VNA => KNA
      | VFloat S754_nan => KNaN
      | VFloat (S754_infinity s) => KInf s
      | VStr s => KStr s
      | VDate iso => KDate iso
      | VObj ty addr => KObj ty addr
      | VList items => KList items
      | VTuple items => KTuple items
      | VDict items => KDict (list_to_map items)
      | _ => KNone
      end
  end.

(** The label of a cell in [factorize]: one for all missing values. *)
Definition column_key (v : value) : key :=
  if isna v then KMissing else object_key v.

(** The scan of [keep='first']: a row is kept when its key was not seen. *)
Fixpoint keep_unseen (key_of : list value → list key) (seen : list (list key))
    (l : list (list value)) : list (list value) :=
  match l with
  | [] => []
  | row :: l' =>
      if decide (key_of row ∈ seen) then keep_unseen key_of seen l'
      else row :: keep_unseen key_of (key_of row :: seen) l'
  end.

(** The positions of the columns [drop_duplicates] compares: those named in
    [subset]; [None] is every column. *)
Definition subset_positions (subset : option (list string)) (cols : list string)
    : list nat :=
  List.filter (λ j, match subset, cols !! j with
                    | Some cs, Some c => bool_decide (c ∈ cs)
                    | Some _, None => false
                    | None, _ => true
                    end)
    (seq 0 (length cols)).

(** [DataFrame.duplicated] takes the fast path of [Series.duplicated] for
    one name and column names that do not repeat. *)
Definition one_column (subset : option (list string)) (df : frame) : bool :=
  bool_decide (length (default (columns df) subset) = 1)
  && bool_decide (NoDup (columns df)).

(** The key of a row: on the fast path the key of its cell in the hash
    table, otherwise the labels of its cells. *)
Definition row_key (df : frame) (subset : option (list string))
    (row : list value) : list key :=
  (λ j, if one_column subset df then object_key (cell row j)
        else column_key (cell row j))
    <$> subset_positions subset (columns df).

(** [df.drop_duplicates(subset=..., keep='first').reset_index(drop=True)],
    when it does not raise: an empty table is returned as it is. *)
Definition drop_duplicates (subset : option (list string)) (df : frame) : frame :=
  if frame_empty df then df
  else Frame (columns df) (keep_unseen (row_key df subset) [] (rows df)).

(** The name of the type of a cell that cannot be hashed. *)
Definition unhashable (v : value) : option string :=
  match v with
  | VList _ => Some "list"
  | VDict _ => Some "dict"
  | _ => None
  end.

(** ** Exceptions, documents and the trace of a run *)

Inductive exn :=
  | TypeError (msg : string)
  | ValueError (msg : string)
  | KeyError (k : string)
  | IndexError
  | AttributeError
  | OSError
  | InvalidIndexError
  | ProviderError (msg : string).

Inductive outcome (A : Type) :=
  | Ok (a : A)
  | Raise (e : exn).
Arguments Ok {A} a.
Arguments Raise {A} e.

(** The keyword arguments of [jobspy.scrape_jobs]. *)
Record scrape_params := ScrapeParams {
  p_site_name : list string;
  p_search_term : string;
  p_location : string;
  p_country_indeed : string;
  p_results_wanted : Z;
  p_hours_old : Z;
  p_verbose : Z;
  p_linkedin_fetch_description : bool;
  p_proxies : option (list string);
  p_job_type : option string;
  p_is_remote : option bool
}.

Inductive json :=
  | JNull
  | JBool (b : bool)
  | JInt (z : Z)
  | JFloat (x : spec_float)
  | JStr (s : string)
  | JArr (items : list string)
  | JObj (items : list (string * string)).

(** The JSON file: one field-to-value mapping per record. *)
Definition document := list (list (string * json)).

(** What [json.dump] has written into the file when it stops at a value it
    cannot encode: the entries of the records before, the fields of the
    record it was in, and the key of the value, after which the text
    ends. *)
Record truncated := Truncated {
  written : document;
  started : list (string * json);
  stopped_at : string
}.

Inductive file_body :=
  | CsvBody (df : frame)
  | JsonBody (doc : document)
  | JsonTruncated (t : truncated).

(** What a run does to the outside, and the calls that cross a component
    boundary, in order. *)
Inductive event :=
  | EvScrape (params : scrape_params) (answer : outcome (option frame))
  | EvSleep (seconds : Z)
  | EvNoResults
  | EvConsolidate (all_jobs : list frame)
  | EvStats (total duplicates_removed unique : nat)
  | EvClean (jobs : frame)
  | EvExport (jobs : option frame)
  | EvOpen (path : string) (ok : bool)
  | EvWrite (path : string) (body : file_body) (ok : bool)
  | EvStat (path : string) (ok : bool)
  | EvError (e : exn).

(** Objects that are mutated or passed by reference. *)
Inductive obj :=
  | ODataFrame (df : frame)
  | ORecords (rs : list dict).

Record JobScraper := { scraper_verbose : Z; scraper_proxies : list string }.

Record JobDataExporter := { output_dir : string; exporter_verbose : bool }.

Record JobCollector := {
  scraper : JobScraper;
  exporter : JobDataExporter;
  collector_verbose : Z
}.

(** One entry of [locations]: a dict with the keys 'location' and 'country'. *)
Record location_config := { location : string; country : string }.

(** The variables of the loop of [collect_and_export]. *)
Record loop_state := { all_jobs : list frame; current_search : nat }.

Section Pipeline.

(** [str(x)] for a finite float [x]; Python's shortest-repr algorithm is
    not part of the repository. *)
Variable float_digits : spec_float → list repr_char.

(** The dtypes of pandas.  [concat_cell dfs j v] is the cell [v] of column
    [j] once [pd.concat(dfs)] has given the column its dtype: an int is a
    float in a column concat had to fill.  [na_marker df j] is what
    [df.replace(...)] and [df.where(pd.notna(df), None)] leave in the missing
    cells of column [j]: [None], or the marker of a dtype that cannot hold
    [None].  [frame_cell rs c v] is the cell [v] of column [c] once
    [pd.DataFrame(rs)] has inferred the dtype of the column: [None] is NaN
    again in a column of floats. *)
Variable concat_cell : list frame → nat → value → value.
Variable na_marker : frame → nat → value.
Variable frame_cell : list dict → string → value → value.

(** The outside: the job boards, the disk and the clock.  [time.sleep]
    raises for a delay it does not accept, a negative one among them. *)
Variable Env : Type.
Variable scrape_jobs : scrape_params → Env → outcome (option frame) * Env.
Variable sleep : Z → Env → outcome unit * Env.
Variable strftime_now : Env → string.
Variable fs_open : string → Env → bool * Env.
Variable fs_write : string → file_body → Env → bool * Env.
Variable fs_stat : string → Env → bool.

(** The report of [JobScraper._print_statistics] counts the values of some
    columns and sums and divides the 'is_remote' column; pandas refuses that
    for some tables, with an exception that is not modelled further. *)
Variable statistics_error : frame → option exn.

Record world := World { env : Env; heap : list obj; trace : list event }.

(** *** The monad of the stateful code: a world and Python exceptions *)

Definition M (A : Type) : Type := world → outcome A * world.

#[local] Instance M_ret : MRet M := λ A a w, (Ok a, w).

#[local] Instance M_bind : MBind M := λ A B k m w,
  match m w with
  | (Ok a, w') => k a w'
  | (Raise e, w') => (Raise e, w')
  end.

Definition raise {A : Type} (e : exn) : M A := λ w, (Raise e, w).

(** [try: body  except Exception as e: handler e] *)
Definition try_except {A : Type} (body : M A) (handler : exn → M A) : M A :=
  λ w, match body w with
       | (Ok a, w') => (Ok a, w')
       | (Raise e, w') => handler e w'
       end.

Definition emit (ev : event) : M unit :=
  λ w, (Ok tt, World (env w) (heap w) (trace w ++ [ev])).

Definition outside {A : Type} (f : Env → A * Env) : M A :=
  λ w, let '(a, e) := f (env w) in (Ok a, World e (heap w) (trace w)).

Fixpoint for_each {A : Type} (l : list A) (body : A → M unit) : M unit :=
  match l with
  | [] => mret tt
  | x :: l' => body x;; for_each l' body
  end.

Fixpoint for_fold {A S : Type} (l : list A) (body : A → S → M S) (s : S) : M S :=
  match l with
  | [] => mret s
  | x :: l' => s' ← body x s; for_fold l' body s'
  end.

Definition alloc (o : obj) : M nat :=
  λ w, (Ok (length (heap w)), World (env w) (heap w ++ [o]) (trace w)).

Definition frame_at (l : nat) : M frame :=
  λ w, match heap w !! l with
       | Some (ODataFrame df) => (Ok df, w)
       | _ => (Raise AttributeError, w)
       end.

Definition records_at (l : nat) : M (list dict) :=
  λ w, match heap w !! l with
       | Some (ORecords rs) => (Ok rs, w)
       | _ => (Raise AttributeError, w)
       end.

(** [records[i][key]] *)
Definition get_item (l i : nat) (key : string) : M value :=
  rs ← records_at l;
  match rs !! i with
  | None => raise IndexError
  | Some record =>
      match dict_get key record with
      | Some v => mret v
      | None => raise (KeyError key)
      end
  end.

Definition store (l : nat) (o : obj) : M unit :=
  λ w, (Ok tt, World (env w) (<[l := o]> (heap w)) (trace w)).

(** [records[i][key] = v], in place. *)
Definition set_item (l i : nat) (key : string) (v : value) : M unit :=
  rs ← records_at l;
  match rs !! i with
  | None => raise IndexError
  | Some record => store l (ORecords (<[i := dict_set key v record]> rs))
  end.

(** ** pandas tables with dtypes *)

(** [pd.DataFrame(records)]: the columns are the keys in order of first
    appearance; a key a record lacks reads as missing. *)
Definition DataFrame_of_records (rs : list dict) : frame :=
  let cols := records_columns rs in
  Frame cols
    ((λ d, (λ c, frame_cell rs c (default nan (dict_get c d))) <$> cols) <$> rs).

(** [pd.concat(dfs, ignore_index=True)], when it does not raise. *)
Definition pd_concat (dfs : list frame) : frame :=
  Frame (concat_columns dfs) ((λ row, imap (concat_cell dfs) row) <$> concat_rows dfs).

(** What [pd.concat(dfs)] raises: on no table at all, and when the tables
    do not all have the same columns and one of them has a name twice. *)
Definition concat_error (dfs : list frame) : option exn :=
  if bool_decide (dfs = []) then Some (ValueError "No objects to concatenate")
  else if same_columns dfs then None
  else if forallb (λ df, bool_decide (NoDup (columns df))) dfs then None
  else Some InvalidIndexError.

(** What [drop_duplicates] raises: off the fast path [factorize] hashes the
    cells it compares, the first column first. *)
Definition drop_duplicates_error (subset : option (list string)) (df : frame)
    : option exn :=
  if frame_empty df || one_column subset df then None
  else
    (λ ty, TypeError ("unhashable type: '" +:+ ty +:+ "'"))
      <$> head (subset_positions subset (columns df) ≫= λ j,
                  omap (λ row, unhashable (cell row j)) (rows df)).

(** ** cleaner.py *)

Definition ESSENTIAL_COLUMNS : list string :=
  [ "id"; "site"; "job_url"; "job_url_direct"; "title"; "company";
    "location"; "date_posted"; "job_type"; "salary_source"; "interval";
    "min_amount"; "max_amount"; "currency"; "is_remote"; "job_level";
    "job_function"; "description"; "skills";
    "search_term"; "search_location"; "search_country" ].

Definition float_str (x : spec_float) : string :=
  match x with
  | S754_nan => "nan"
  | S754_infinity false => "inf"
  | S754_infinity true => "-inf"
  | _ => string_of_list_ascii (repr_ascii <$> float_digits x)
  end.

(** [JobDataCleaner._is_nan] *)
Definition _is_nan (value : spec_float) : bool :=
  negb (SFeqb value value) || bool_decide (lower (float_str value) = "nan").

(** [JobDataCleaner._is_invalid_string] *)
Definition _is_invalid_string (value : string) : bool :=
  bool_decide (strip value = "") || bool_decide (lower value = "nan").

(** One iteration of the loop of [_clean_record]. *)
Definition clean_item (record : dict) (item : string * value) : dict :=
  let '(key, value) := item in
  match value with
  | VNone => record
  | VFloat x => if _is_nan x then dict_set key VNone record else record
  | VStr s => if _is_invalid_string s then dict_set key VNone record else record
  | _ => record
  end.

(** [JobDataCleaner._clean_record]: the loop runs over a snapshot of the
    items and writes into the record. *)
Definition _clean_record (record : dict) : dict :=
  foldl clean_item record record.

(** The mask [jobs['description'].notna() & (jobs['description'] != '')]. *)
Definition has_description (jobs : frame) (row : list value) : bool :=
  let d := cell_of jobs row "description" in
  notna d && negb (bool_decide (d = VStr "")).

(** All positions of the column named [c]. *)
Definition positions_of (c : string) (cols : list string) : list nat :=
  List.filter (λ j, bool_decide (cols !! j = Some c)) (seq 0 (length cols)).

(** [df[names]] *)
Definition select_columns (names : list string) (df : frame) : frame :=
  let sel := names ≫= λ c, (λ j, (c, j)) <$> positions_of c (columns df) in
  Frame (sel.*1) ((λ row, cell row <$> sel.*2) <$> rows df).

(** [JobDataCleaner._filter_columns] *)
Definition _filter_columns (jobs : frame) : frame :=
  let available_columns :=
    List.filter (λ col, has_column col jobs) ESSENTIAL_COLUMNS in
  select_columns available_columns jobs.

(** Lines 89-90: [replace] and [where] leave the cells that are not
    missing as they are, and in the missing ones the marker of the
    column. *)
Definition fill_missing (jobs : frame) : frame :=
  Frame (columns jobs)
    ((λ row, imap (λ j v, if isna v then na_marker jobs j else v)
               (fit (length (columns jobs)) row))
       <$> rows jobs).

(** [JobDataCleaner._remove_invalid_values]: the missing cells are filled,
    then the records are cleaned one by one and made a table again. *)
Definition _remove_invalid_values (jobs : frame) : frame :=
  let jobs := fill_missing jobs in
  let jobs_dict := to_dict jobs in
  DataFrame_of_records (_clean_record <$> jobs_dict).

(** Lines 58-59 of [clean], for a table in which 'description' names one
    column: the rows without a description are dropped when the column
    exists.  With two columns of that name line 59 raises, see
    [clean_error]. *)
Definition drop_without_description (jobs : frame) : frame :=
  if has_column "description" jobs
  then Frame (columns jobs) (List.filter (has_description jobs) (rows jobs))
  else jobs.

(** What [clean] raises on a table with a column name twice: line 59 when
    it is 'description' ([jobs[mask]] with a mask of two columns), line 69
    when it is 'site' and rows were dropped ([jobs['site']] is a table and
    has no [unique]). *)
Definition clean_error (jobs : option frame) : option exn :=
  match jobs with
  | None => None
  | Some jobs =>
      if frame_empty jobs then None
      else if has_column "description" jobs then
        if bool_decide (1 < length (positions_of "description" (columns jobs)))
        then Some (ValueError "cannot reindex on an axis with duplicate labels")
        else if bool_decide (frame_len (drop_without_description jobs) < frame_len jobs)
                && bool_decide (1 < length (positions_of "site" (columns jobs)))
        then Some AttributeError
        else None
      else None
  end.

(** [JobDataCleaner.clean], when it does not raise. *)
Definition clean (jobs : option frame) : option frame :=
  match jobs with
  | None => None
  | Some jobs =>
      if frame_empty jobs then None
      else
        let jobs := drop_without_description jobs in
        let jobs := _filter_columns jobs in
        let jobs := _remove_invalid_values jobs in
        if frame_empty jobs then None else Some jobs
  end.

(** ** exporter.py *)

(** One step of the inner loop of [_clean_for_json], on the records at
    [jobs_dict]. *)
Definition sweep_item (jobs_dict i : nat) (key : string) : M unit :=
  value ← get_item jobs_dict i key;
  match value with
  | VNone => mret tt
  | VFloat x =>
      if negb (SFeqb x x) || bool_decide (lower (float_str x) = "nan")
      then set_item jobs_dict i key VNone else mret tt
  | VStr s =>
      if bool_decide (lower s = "nan")
      then set_item jobs_dict i key VNone else mret tt
  | _ => mret tt
  end.

(** What [sweep_item] leaves in place of a value. *)
Definition json_sweep (v : value) : value :=
  match v with
  | VFloat x =>
      if negb (SFeqb x x) || bool_decide (lower (float_str x) = "nan")
      then VNone else v
  | VStr s => if bool_decide (lower s = "nan") then VNone else v
  | _ => v
  end.

(** [sweep_item] on a record, and the inner loop of [_clean_for_json]. *)
Definition sweep_key (record : dict) (key : string) : dict :=
  match dict_get key record with
  | Some v => dict_set key (json_sweep v) record
  | None => record
  end.

Definition sweep_record (record : dict) : dict :=
  foldl sweep_key record (dict_keys record).

(** [JobDataExporter._clean_for_json]: the records are swept in place. *)
Definition _clean_for_json (jobs_dict : nat) : M unit :=
  rs ← records_at jobs_dict;
  for_each (seq 0 (length rs)) (λ i,
    rs ← records_at jobs_dict;
    match rs !! i with
    | None => raise IndexError
    | Some record => for_each (dict_keys record) (sweep_item jobs_dict i)
    end).

(** The text of [type(obj)]. *)
Definition type_name (obj : value) : string :=
  match obj with
  | VNone => "<class 'NoneType'>"
  | VBool _ => "<class 'bool'>"
  | VInt _ => "<class 'int'>"
  | VFloat _ => "<class 'float'>"
  | VStr _ => "<class 'str'>"
  | VDate _ => "<class 'datetime.datetime'>"
  | VNA => "<class 'pandas._libs.missing.NAType'>"
  | VObj ty _ => ty
  | VList _ => "<class 'list'>"
  | VTuple _ => "<class 'tuple'>"
  | VDict _ => "<class 'dict'>"
  end.

(** [JobDataExporter._json_serializer], the [default] of [json.dump]:
    [json] calls it on the values it does not encode by itself. *)
Definition _json_serializer (obj : value) : outcome value :=
  match obj with
  | VDate iso => Ok (VStr iso)
  | VNone => Ok VNone
  | _ =>
      if match obj with
         | VFloat x =>
             negb (SFeqb x x) || bool_decide (lower (float_str x) = "nan")
         | _ => false
         end
      then Ok VNone
      else if isna obj then Ok VNone
      else Raise (TypeError ("Type " +:+ type_name obj +:+ " is not serializable"))
  end.

(** What [json.dump] writes for a value of a type it knows: [None], a
    bool, an int, a float, a string, and a list, a tuple or a dict, which
    become an array or an object; with [allow_nan=False] a float that is not
    finite is refused. *)
Definition encode_native (v : value) : option (outcome json) :=
  match v with
  | VNone => Some (Ok JNull)
  | VBool b => Some (Ok (JBool b))
  | VInt z => Some (Ok (JInt z))
  | VFloat x =>
      Some match x with
           | S754_nan | S754_infinity _ =>
               Raise (ValueError "Out of range float values are not JSON compliant")
           | _ => Ok (JFloat x)
           end
  | VStr s => Some (Ok (JStr s))
  | VList items | VTuple items => Some (Ok (JArr items))
  | VDict items => Some (Ok (JObj items))
  | _ => None
  end.

(** [json.dump(..., default=_json_serializer)] on one value: a value of
    another type goes through [default], and what comes back is encoded. *)
Definition encode_value (v : value) : outcome json :=
  match encode_native v with
  | Some r => r
  | None =>
      match _json_serializer v with
      | Raise e => Raise e
      | Ok v' =>
          match encode_native v' with
          | Some r => r
          | None => Raise (ValueError "Circular reference detected")
          end
      end
  end.

Fixpoint encode_record (d : dict) : outcome (list (string * json)) :=
  match d with
  | [] => Ok []
  | (k, v) :: d' =>
      match encode_value v with
      | Raise e => Raise e
      | Ok j =>
          match encode_record d' with
          | Raise e => Raise e
          | Ok js => Ok ((k, j) :: js)
          end
      end
  end.

Fixpoint encode_document (rs : list dict) : outcome document :=
  match rs with
  | [] => Ok []
  | d :: rs' =>
      match encode_record d with
      | Raise e => Raise e
      | Ok r =>
          match encode_document rs' with
          | Raise e => Raise e
          | Ok doc => Ok (r :: doc)
          end
      end
  end.

(** The fields [json.dump] has written of a record when it stops, and the
    key it stops at. *)
Fixpoint record_written (d : dict) : list (string * json) * string :=
  match d with
  | [] => ([], "")
  | (k, v) :: d' =>
      match encode_value v with
      | Ok j => let '(js, key) := record_written d' in ((k, j) :: js, key)
      | Raise _ => ([], k)
      end
  end.

(** What [json.dump] has written when it stops at the first value that it
    cannot encode. *)
Fixpoint document_written (rs : list dict) : truncated :=
  match rs with
  | [] => Truncated [] [] ""
  | d :: rs' =>
      match encode_record d with
      | Ok r =>
          let t := document_written rs' in
          Truncated (r :: written t) (started t) (stopped_at t)
      | Raise _ =>
          let '(js, key) := record_written d in Truncated [] js key
      end
  end.

Definition write_file (path : string) (body : file_body) : M unit :=
  ok ← outside (fs_write path body);
  emit (EvWrite path body ok);;
  if ok : bool then mret tt else raise OSError.

Definition open_file (path : string) : M unit :=
  ok ← outside (fs_open path);
  emit (EvOpen path ok);;
  if ok : bool then mret tt else raise OSError.

Definition stat_file (path : string) : M unit :=
  ok ← outside (λ e, (fs_stat path e, e));
  emit (EvStat path ok);;
  if ok : bool then mret tt else raise OSError.

(** [JobDataExporter._export_csv] *)
Definition _export_csv (self : JobDataExporter) (jobs : nat) (filename : string)
    : M unit :=
  df ← frame_at jobs;
  write_file filename (CsvBody df).

(** [JobDataExporter._export_json]: [json.dump] writes into the open file
    as it encodes; when a value is refused the file keeps what was written
    before it. *)
Definition _export_json (self : JobDataExporter) (jobs : nat) (filename : string)
    : M unit :=
  df ← frame_at jobs;
  jobs_dict ← alloc (ORecords (to_dict df));
  _clean_for_json jobs_dict;;
  open_file filename;;
  rs ← records_at jobs_dict;
  match encode_document rs with
  | Raise e => write_file filename (JsonTruncated (document_written rs));; raise e
  | Ok doc => write_file filename (JsonBody doc)
  end.

(** [JobDataExporter._print_export_summary]: the sizes come from the disk. *)
Definition _print_export_summary (self : JobDataExporter)
    (csv_file json_file : string) : M unit :=
  if exporter_verbose self
  then stat_file csv_file;; stat_file json_file
  else mret tt.

(** [JobDataExporter._generate_timestamp] *)
Definition _generate_timestamp : M string :=
  outside (λ e, (strftime_now e, e)).

(** [JobDataExporter.export]; [jobs] is [None] or a reference to a table. *)
Definition export (self : JobDataExporter) (jobs : option nat)
    (base_filename : string) : M bool :=
  is_empty ← match jobs with
             | None => mret true
             | Some l => df ← frame_at l; mret (frame_empty df)
             end;
  if is_empty : bool then mret false
  else
    match jobs with
    | None => mret false
    | Some l =>
        try_except
          (timestamp ← _generate_timestamp;
           let csv_file :=
             output_dir self +:+ "/" +:+ base_filename +:+ "_" +:+ timestamp +:+ ".csv" in
           let json_file :=
             output_dir self +:+ "/" +:+ base_filename +:+ "_" +:+ timestamp +:+ ".json" in
           _export_csv self l csv_file;;
           _export_json self l json_file;;
           _print_export_summary self csv_file json_file;;
           mret true)
          (λ e, emit (EvError e);; mret false)
    end.

(** ** scraper.py *)

Definition DEFAULT_PLATFORMS : list string := ["indeed"; "glassdoor"].

(** [JobScraper._build_params] *)
Definition _build_params (self : JobScraper) (search_term location : string)
    (platforms : list string) (country : string) (results_wanted days_old : Z)
    (job_type : option string) (is_remote : option bool) : scrape_params :=
  {| p_site_name := platforms;
     p_search_term := search_term;
     p_location := location;
     p_country_indeed := country;
     p_results_wanted := results_wanted;
     p_hours_old := days_old * 24;
     p_verbose := scraper_verbose self;
     p_linkedin_fetch_description := true;
     p_proxies :=
       if bool_decide (scraper_proxies self = []) then None
       else Some (scraper_proxies self);
     p_job_type :=
       match job_type with
       | Some t => if bool_decide (t = "") then None else Some t
       | None => None
       end;
     p_is_remote := is_remote |}.

(** The call of [scrape_jobs] with the keyword arguments [params]. *)
Definition call_scrape_jobs (params : scrape_params) : M (option frame) :=
  λ w, let '(answer, e) := scrape_jobs params (env w) in
       (answer, World e (heap w) (trace w ++ [EvScrape params answer])).

(** [JobScraper._print_statistics] *)
Definition _print_statistics (jobs : frame) : M unit :=
  match statistics_error jobs with
  | Some e => raise e
  | None => mret tt
  end.

(** [JobScraper._print_results]: nothing but printing, which can raise. *)
Definition _print_results (self : JobScraper) (jobs : option frame) : M unit :=
  if bool_decide (scraper_verbose self = 0%Z) then mret tt
  else
    match jobs with
    | None => mret tt
    | Some df =>
        if bool_decide (0 < frame_len df) && bool_decide (1 ≤ scraper_verbose self)%Z
        then _print_statistics df
        else mret tt
    end.

(** [JobScraper.search] *)
Definition search (self : JobScraper) (search_term location : string)
    (platforms : list string) (country : string) (results_wanted days_old : Z)
    (job_type : option string) (is_remote : option bool) : M (option frame) :=
  let platforms :=
    if bool_decide (platforms = []) then DEFAULT_PLATFORMS else platforms in
  try_except
    (let params :=
       _build_params self search_term location platforms country
         results_wanted days_old job_type is_remote in
     jobs ← call_scrape_jobs params;
     _print_results self jobs;;
     mret match jobs with
          | Some df => if bool_decide (0 < frame_len df) then Some df else None
          | None => None
          end)
    (λ e, mret None).

(** ** collector.py *)

(** [JobCollector.__init__] *)
Definition new_JobCollector (output_dir : string) (verbose : Z)
    (proxies : list string) : JobCollector :=
  {| scraper := {| scraper_verbose := verbose; scraper_proxies := proxies |};
     exporter := {| output_dir := output_dir;
                    exporter_verbose := bool_decide (0 < verbose)%Z |};
     collector_verbose := verbose |}.

(** [time.sleep(seconds)] *)
Definition time_sleep (seconds : Z) : M unit :=
  λ w, let '(r, e) := sleep seconds (env w) in (r, World e (heap w) (trace w)).

(** [JobCollector._wait_between_searches]; the pause is in the trace once
    it is over. *)
Definition _wait_between_searches (seconds : Z) : M unit :=
  time_sleep seconds;;
  emit (EvSleep seconds).

(** The three assignments that tag a batch with its search. *)
Definition tag_search (term location country : string) (jobs : frame) : frame :=
  set_column "search_country" (VStr country)
    (set_column "search_location" (VStr location)
       (set_column "search_term" (VStr term) jobs)).

(** The body of the inner loop of [collect_and_export]. *)
Definition search_step (self : JobCollector) (platforms : list string)
    (results_per_term days_old delay_between_searches : Z)
    (job_type : option string) (is_remote : option bool)
    (total_searches : nat) (location_config : location_config) (term : string)
    (st : loop_state) : M loop_state :=
  let current_search := S (current_search st) in
  jobs ← search (scraper self) term (location location_config) platforms
           (country location_config) results_per_term days_old job_type is_remote;
  let all_jobs :=
    match jobs with
    | Some jobs =>
        if negb (frame_empty jobs)
        then all_jobs st
               ++ [tag_search term (location location_config)
                     (country location_config) jobs]
        else all_jobs st
    | None => all_jobs st
    end in
  (if bool_decide (current_search < total_searches)
   then _wait_between_searches delay_between_searches else mret tt);;
  mret {| all_jobs := all_jobs; current_search := current_search |}.

(** Lines 126-134 of [_consolidate_and_export]: by 'id' when the column
    exists, by the whole row otherwise. *)
Definition unique_jobs_of (consolidated : frame) : frame :=
  if has_column "id" consolidated
  then drop_duplicates (Some ["id"]) consolidated
  else drop_duplicates None consolidated.

Definition unique_jobs_error (consolidated : frame) : option exn :=
  if has_column "id" consolidated
  then drop_duplicates_error (Some ["id"]) consolidated
  else drop_duplicates_error None consolidated.

(** A call into pandas or the cleaner that raises or returns. *)
Definition or_raise (error : option exn) : M unit :=
  match error with
  | Some e => raise e
  | None => mret tt
  end.

(** [JobCollector._consolidate_and_export] *)
Definition _consolidate_and_export (self : JobCollector) (all_jobs : list frame)
    (output_filename : string) : M bool :=
  emit (EvConsolidate all_jobs);;
  or_raise (concat_error all_jobs);;
  let consolidated := pd_concat all_jobs in
  or_raise (unique_jobs_error consolidated);;
  let unique_jobs := unique_jobs_of consolidated in
  let duplicates_removed := frame_len consolidated - frame_len unique_jobs in
  (if bool_decide (collector_verbose self = 0%Z) then mret tt
   else emit (EvStats (frame_len consolidated) duplicates_removed
                (frame_len unique_jobs)));;
  emit (EvClean unique_jobs);;
  or_raise (clean_error (Some unique_jobs));;
  let clean_jobs := clean (Some unique_jobs) in
  jobs_ref ← match clean_jobs with
             | Some df => l ← alloc (ODataFrame df); mret (Some l)
             | None => mret None
             end;
  emit (EvExport clean_jobs);;
  success ← export (exporter self) jobs_ref output_filename;
  mret success.

(** [JobCollector.collect_and_export] *)
Definition collect_and_export (self : JobCollector) (search_terms : list string)
    (locations : list location_config) (platforms : list string)
    (results_per_term days_old : Z) (output_filename : string)
    (delay_between_searches : Z) (job_type : option string)
    (is_remote : option bool) : M bool :=
  let total_searches := length search_terms * length locations in
  st ← for_fold locations (λ location_config st,
         for_fold search_terms
           (search_step self platforms results_per_term days_old
              delay_between_searches job_type is_remote total_searches
              location_config) st)
       {| all_jobs := []; current_search := 0 |};
  if bool_decide (all_jobs st = [])
  then emit EvNoResults;; mret false
  else _consolidate_and_export self (all_jobs st) output_filename.

(** *** The search loop *)


(** The arguments the provider gets for one combination. *)
Definition task_params (self : JobCollector) (platforms : list string)
    (results_per_term days_old : Z) (job_type : option string)
    (is_remote : option bool) (task : location_config * string) : scrape_params :=
  _build_params (scraper self) task.2 (location task.1)
    (if bool_decide (platforms = []) then DEFAULT_PLATFORMS else platforms)
    (country task.1) results_per_term days_old job_type is_remote.








(** *** Reading a trace *)

Definition scrapes (evs : list event) : list scrape_params :=
  omap (λ ev, match ev with EvScrape p _ => Some p | _ => None end) evs.

Definition answers_of (evs : list event) : list (outcome (option frame)) :=
  omap (λ ev, match ev with EvScrape _ answer => Some answer | _ => None end) evs.

Definition pauses (evs : list event) : list Z :=
  omap (λ ev, match ev with EvSleep s => Some s | _ => None end) evs.





Definition is_stage_event (ev : event) : bool :=
  match ev with
  | EvConsolidate _ | EvStats _ _ _ | EvClean _ | EvExport _
  | EvOpen _ _ | EvWrite _ _ _ | EvStat _ _ | EvError _ => true
  | _ => false
  end.


(** *** scraper.py: the local post-filter *)

(** [needle in hay] for strings. *)
Fixpoint str_contains (needle hay : string) : bool :=
  String.prefix needle hay
  || match hay with
     | EmptyString => false
     | String _ hay' => str_contains needle hay'
     end.

(** [row.get(col)] on a row of [jobs]: the cell when the name is the name
    of one column, [None] when there is no such column; with several
    columns of that name pandas returns a Series, which is no string
    either. *)
Definition row_get (jobs : frame) (row : list value) (col : string)
    : option value :=
  match positions_of col (columns jobs) with
  | [j] => Some (cell row j)
  | _ => None
  end.

(** The local function [row_matches] of [_filter_by_search_term]. *)
Definition row_matches (normalized : string) (jobs : frame) (row : list value)
    : bool :=
  existsb (λ col,
             match row_get jobs row col with
             | Some (VStr s) => str_contains normalized (lower s)
             | _ => false
             end)
    ["title"; "description"].

(** [JobScraper._filter_by_search_term] *)
Definition _filter_by_search_term (self : JobScraper) (jobs : frame)
    (search_term : string) : frame :=
  if bool_decide (search_term = "") then jobs
  else
    let normalized := lower (strip search_term) in
    if bool_decide (normalized = "") then jobs
    else
      let filtered :=
        Frame (columns jobs) (List.filter (row_matches normalized jobs) (rows jobs)) in
      if bool_decide (0 < frame_len filtered) then filtered else jobs.


(** ** config_loader.py *)

(** A JSON value, as [json.load] returns it. *)
#[warnings="-register-all"] Inductive cfg :=
  | CNull
  | CBool (b : bool)
  | CInt (z : Z)
  | CFloat (x : spec_float)
  | CStr (s : string)
  | CList (l : list cfg)
  | CDict (d : list (string * cfg)).

(** The items of a Python dict of JSON values, in insertion order. *)
Definition cfg_dict := list (string * cfg).

Fixpoint cfg_get (k : string) (d : cfg_dict) : option cfg :=
  match d with
  | [] => None
  | (k', v) :: d' => if decide (k = k') then Some v else cfg_get k d'
  end.

(** [d[k] = v] *)
Fixpoint cfg_set (k : string) (v : cfg) (d : cfg_dict) : cfg_dict :=
  match d with
  | [] => [(k, v)]
  | (k', v') :: d' =>
      if decide (k = k') then (k', v) :: d' else (k', v') :: cfg_set k v d'
  end.

(** [d.pop(k, None)] *)
Fixpoint cfg_pop (k : string) (d : cfg_dict) : cfg_dict :=
  match d with
  | [] => []
  | (k', v) :: d' => if decide (k = k') then d' else (k', v) :: cfg_pop k d'
  end.

(** [ConfigLoader.DEFAULT_CONFIG] *)
Definition DEFAULT_CONFIG : cfg_dict :=
  [ ("search",
     CDict [ ("terms", CList [CStr "QA Engineer"]);
             ("locations",
              CList [CDict [("location", CStr "Brazil"); ("country", CStr "Brazil")]]);
             ("platforms", CList [CStr "indeed"]);
             ("results_per_term", CInt 10);
             ("days_old", CInt 7) ]);
    ("output",
     CDict [("directory", CStr "results"); ("filename", CStr "jobs_dataset")]);
    ("scraping",
     CDict [ ("delay_between_searches", CInt 10); ("verbose", CInt 1);
             ("proxies", CList []) ]);
    ("filters", CDict [("job_type", CNull); ("is_remote", CNull)]) ].

(** [key in x] for the value [x] under 'search': a key of a dict, a
    substring of a string, an element of a list; the other values are not
    iterable. *)
Definition key_in (key : string) (x : cfg) : outcome bool :=
  match x with
  | CDict d => Ok (bool_decide (is_Some (cfg_get key d)))
  | CStr s => Ok (str_contains key s)
  | CList l =>
      Ok (existsb (λ y, match y with
                        | CStr s => bool_decide (s = key)
                        | _ => false
                        end) l)
  | _ => Raise (TypeError "argument is not iterable")
  end.

(** The end of [_merge_configs]: a single 'location' under 'search' becomes
    the list 'locations'.  The code changes the dict under 'search' in
    place; [merged] is a shallow copy, so that dict is the user's own or the
    result of a nested merge, or else the one of [default_config].  The
    returned value is the same in each case, and it is the returned value
    that is modelled; with [DEFAULT_CONFIG] the last case does not change
    anything, since its 'search' has 'locations'. *)
Definition convert_single_location (merged : cfg_dict) : outcome cfg_dict :=
  match cfg_get "search" merged with
  | None => Ok merged
  | Some search =>
      match key_in "location" search with
      | Raise e => Raise e
      | Ok false => Ok merged
      | Ok true =>
          match key_in "locations" search with
          | Raise e => Raise e
          | Ok true => Ok merged
          | Ok false =>
              match search with
              | CDict s =>
                  match cfg_get "location" s with
                  | None => Raise (KeyError "location")
                  | Some loc =>
                      let country := default loc (cfg_get "country" s) in
                      let s :=
                        cfg_set "locations"
                          (CList [CDict [("location", loc); ("country", country)]])
                          s in
                      let s := cfg_pop "location" s in
                      let s := cfg_pop "country" s in
                      Ok (cfg_set "search" (CDict s) merged)
                  end
              | _ => Raise (TypeError "string indices must be integers")
              end
          end
      end
  end.

(** [ConfigLoader._merge_configs]; [user_config] is what the file held,
    which need not be a dict. *)
Fixpoint _merge_configs (user_config : cfg) (default_config : cfg_dict)
    : outcome cfg_dict :=
  match user_config with
  | CDict items =>
      match
        (fix loop (items : list (string * cfg)) (merged : cfg_dict)
           : outcome cfg_dict :=
           match items with
           | [] => Ok merged
           | (key, value) :: items' =>
               match value, cfg_get key merged with
               | CDict _, Some (CDict d) =>
                   match _merge_configs value d with
                   | Ok m => loop items' (cfg_set key (CDict m) merged)
                   | Raise e => Raise e
                   end
               | _, _ => loop items' (cfg_set key value merged)
               end
           end) items default_config
      with
      | Ok merged => convert_single_location merged
      | Raise e => Raise e
      end
  | _ => Raise AttributeError
  end.

(** The loop of [_merge_configs] over the items of the user's dict. *)
Definition merge_items : list (string * cfg) → cfg_dict → outcome cfg_dict :=
  fix loop (items : list (string * cfg)) (merged : cfg_dict)
    : outcome cfg_dict :=
    match items with
    | [] => Ok merged
    | (key, value) :: items' =>
        match value, cfg_get key merged with
        | CDict _, Some (CDict d) =>
            match _merge_configs value d with
            | Ok m => loop items' (cfg_set key (CDict m) merged)
            | Raise e => Raise e
            end
        | _, _ => loop items' (cfg_set key value merged)
        end
    end.

(** What [_load_config] finds at the path. *)
Inductive config_file :=
  | NoFile
  | Unreadable (e : exn)
  | Parsed (user_config : cfg).

(** [ConfigLoader._load_config] *)
Definition _load_config (file : config_file) : cfg_dict :=
  match file with
  | NoFile => DEFAULT_CONFIG
  | Unreadable _ => DEFAULT_CONFIG
  | Parsed user_config =>
      match _merge_configs user_config DEFAULT_CONFIG with
      | Ok config => config
      | Raise _ => DEFAULT_CONFIG
      end
  end.

(** [bool(v)] *)
Definition truthy (v : cfg) : bool :=
  match v with
  | CNull => false
  | CBool b => b
  | CInt z => negb (z =? 0)%Z
  | CFloat (S754_zero _) => false
  | CFloat _ => true
  | CStr s => negb (bool_decide (s = ""))
  | CList l => match l with [] => false | _ => true end
  | CDict d => match d with [] => false | _ => true end
  end.

Definition is_list (v : cfg) : bool :=
  match v with CList _ => true | _ => false end.

(** [not search.get(k) or not isinstance(search[k], list)] *)
Definition not_a_filled_list (search : cfg_dict) (k : string) : bool :=
  negb (truthy (default CNull (cfg_get k search)))
  || negb (is_list (default CNull (cfg_get k search))).

(** The test on one entry of 'locations'. *)
Definition bad_location (loc : cfg) : bool :=
  match loc with
  | CDict d =>
      negb (bool_decide (is_Some (cfg_get "location" d)))
      || negb (bool_decide (is_Some (cfg_get "country" d)))
  | _ => true
  end.

(** [ConfigLoader._validate_config] *)
Definition _validate_config (config : cfg_dict) : outcome unit :=
  match default (CDict []) (cfg_get "search" config) with
  | CDict search =>
      if not_a_filled_list search "terms"
      then Raise (ValueError "search.terms must be a non-empty list")
      else if not_a_filled_list search "locations"
      then Raise (ValueError "search.locations must be a non-empty list")
      else
        match cfg_get "locations" search with
        | Some (CList locations) =>
            if existsb bad_location locations
            then Raise (ValueError
                          "Each location must be a dict with 'location' and 'country' keys")
            else if not_a_filled_list search "platforms"
            then Raise (ValueError "search.platforms must be a non-empty list")
            else Ok tt
        | _ => Raise (TypeError "object is not iterable")
        end
  | _ => Raise AttributeError
  end.

(** [ConfigLoader.__init__]: the configuration, or what the validation
    raised. *)
Definition ConfigLoader (file : config_file) : outcome cfg_dict :=
  let config := _load_config file in
  match _validate_config config with
  | Ok _ => Ok config
  | Raise e => Raise e
  end.

(** [s.split(sep)] for a separator of one character. *)
Fixpoint split_on (sep : ascii) (s : string) : list string :=
  match s with
  | EmptyString => [EmptyString]
  | String c s' =>
      if decide (c = sep) then EmptyString :: split_on sep s'
      else
        match split_on sep s' with
        | [] => [String c EmptyString]
        | word :: words => String c word :: words
        end
  end.

(** [value[key]] for a string [key] *)
Definition cfg_item (value : cfg) (key : string) : outcome cfg :=
  match value with
  | CDict d =>
      match cfg_get key d with
      | Some v => Ok v
      | None => Raise (KeyError key)
      end
  | _ => Raise (TypeError "indices must be integers")
  end.

(** ['.'.join(keys)] *)
Fixpoint dotted (keys : list string) : string :=
  match keys with
  | [] => ""
  | [key] => key
  | key :: keys' => key +:+ "." +:+ dotted keys'
  end.

(** The character occurs in the string. *)
Fixpoint has_char (c : ascii) (s : string) : bool :=
  match s with
  | EmptyString => false
  | String c' s' => bool_decide (c' = c) || has_char c s'
  end.

(** The loop of [get]. *)
Fixpoint follow (keys : list string) (value : cfg) : outcome cfg :=
  match keys with
  | [] => Ok value
  | key :: keys' =>
      match cfg_item value key with
      | Ok v => follow keys' v
      | Raise e => Raise e
      end
  end.

(** [ConfigLoader.get] *)
Definition get (config : cfg_dict) (key_path : string) (default : cfg) : cfg :=
  match follow (split_on "." key_path) (CDict config) with
  | Ok value => value
  | Raise _ => default
  end.

(** [ConfigLoader.get_search_config] *)
Definition get_search_config (config : cfg_dict) : outcome cfg_dict :=
  let entry key :=
    match cfg_item (CDict config) "search" with
    | Ok search => cfg_item search key
    | Raise e => Raise e
    end in
  match entry "terms" with
  | Raise e => Raise e
  | Ok terms =>
      match entry "locations" with
      | Raise e => Raise e
      | Ok locations =>
          match entry "platforms" with
          | Raise e => Raise e
          | Ok platforms =>
              match entry "results_per_term" with
              | Raise e => Raise e
              | Ok results_per_term =>
                  match entry "days_old" with
                  | Raise e => Raise e
                  | Ok days_old =>
                      Ok [ ("terms", terms); ("locations", locations);
                           ("platforms", platforms);
                           ("results_per_term", results_per_term);
                           ("days_old", days_old) ]
                  end
              end
          end
      end
  end.


(** ** The rules in the words of the specification *)

(** The spellings of "nan" up to case. *)
Definition nan_spellings : list string :=
  ["nan"; "naN"; "nAn"; "nAN"; "Nan"; "NaN"; "NAn"; "NAN"].

(** A string that is empty once whitespace is trimmed. *)
Definition blank (s : string) : bool :=
  forallb isspace (list_ascii_of_string s).

(** An invalid value: a not-a-number float, a blank string, or a string
    that is "nan" up to case. *)
Definition spec_invalid (v : value) : bool :=
  match v with
  | VFloat S754_nan => true
  | VStr s => blank s || bool_decide (s ∈ nan_spellings)
  | _ => false
  end.

(** Invalid values become an explicit null; the others are unchanged. *)
Definition spec_normalize (v : value) : value :=
  if spec_invalid v then VNone else v.

(** A cell that holds a blank string. *)
Definition blank_string (v : value) : bool :=
  match v with
  | VStr s => blank s
  | _ => false
  end.

(** The rule of the sweep before the JSON file is written: the rule of the
    cleaner, except that a blank string stays. *)
Definition spec_sweep (v : value) : value :=
  if blank_string v then v else spec_normalize v.

(** The rows that are the first of their key: row [i] stays when no row
    before it has the same key. *)
Definition first_occurrences {K : Type} `{EqDecision K}
    (key_of : list value → K) (l : list (list value)) : list (list value) :=
  omap id
    (imap (λ i row,
             if decide (key_of row ∈ key_of <$> take i l) then None else Some row)
       l).

(** The first occurrences under a relation: row [i] stays when no row
    before it is the same. *)
Definition first_by (same : list value → list value → bool)
    (l : list (list value)) : list (list value) :=
  omap id
    (imap (λ i row, if existsb (same row) (take i l) then None else Some row) l).

(** Two numbers [m * 2 ^ e] are equal. *)
Definition same_number (x y : Z * Z) : bool :=
  let e := Z.min x.2 y.2 in
  (x.1 * 2 ^ (x.2 - e) =? y.1 * 2 ^ (y.2 - e))%Z.

(** Two values are the same: the same text, the same number whatever its
    type, the same date, the same list or tuple, the same mapping, the same
    object.  [None], NaN, [pd.NA] and [pd.NaT] are the same as themselves
    only. *)
Definition same_value (a b : value) : bool :=
  match number a, number b with
  | Some x, Some y => same_number x y
  | None, None =>
      match a, b with
      | VNone, VNone => true
      | VNA, VNA => true
      | VFloat S754_nan, VFloat S754_nan => true
      | VFloat (S754_infinity s), VFloat (S754_infinity s') => bool_decide (s = s')
      | VStr s, VStr s' => bool_decide (s = s')
      | VDate iso, VDate iso' => bool_decide (iso = iso')
      | VObj ty addr, VObj ty' addr' => bool_decide (ty = ty' ∧ addr = addr')
      | VList items, VList items' => bool_decide (items = items')
      | VTuple items, VTuple items' => bool_decide (items = items')
      | VDict items, VDict items' =>
          bool_decide (list_to_map (M := gmap string string) items
                       = list_to_map items')
      | _, _ => false
      end
  | _, _ => false
  end.

(** Two rows of [df] have the same identifier. *)
Definition same_identifier (df : frame) (row row' : list value) : bool :=
  same_value (cell_of df row "id") (cell_of df row' "id").

(** Two cells of whole records are the same: both are missing, or neither
    is and they are the same value. *)
Definition same_cell (a b : value) : bool :=
  if isna a then isna b else notna b && same_value a b.

(** Two rows of [df] are the same record, field by field. *)
Definition same_record (df : frame) (row row' : list value) : bool :=
  forallb (λ j, same_cell (cell row j) (cell row' j))
    (seq 0 (length (columns df))).


(** A float that JSON can hold. *)
Definition finite (x : spec_float) : bool :=
  match x with
  | S754_nan | S754_infinity _ => false
  | _ => true
  end.



(** ** Strings and floats *)

Lemma lower_char_n (c : ascii) :
  lower_char c = "n"%char ↔ c = "n"%char ∨ c = "N"%char.
Proof.
  assert (Hb : bool_decide (lower_char c = "n"%char)
               = bool_decide (c = "n"%char ∨ c = "N"%char)).
  { destruct c as [[] [] [] [] [] [] [] []]; vm_compute; reflexivity. }
  by rewrite <- (bool_decide_eq_true (lower_char c = _)), Hb, bool_decide_eq_true.
Qed.

Lemma lower_char_a (c : ascii) :
  lower_char c = "a"%char ↔ c = "a"%char ∨ c = "A"%char.
Proof.
  assert (Hb : bool_decide (lower_char c = "a"%char)
               = bool_decide (c = "a"%char ∨ c = "A"%char)).
  { destruct c as [[] [] [] [] [] [] [] []]; vm_compute; reflexivity. }
  by rewrite <- (bool_decide_eq_true (lower_char c = _)), Hb, bool_decide_eq_true.
Qed.

(** [s.lower() == 'nan'] holds for the eight spellings and no other string. *)
Lemma lower_nan_iff (s : string) : lower s = "nan" ↔ s ∈ nan_spellings.
Proof.
  split.
  - destruct s as [|c1 [|c2 [|c3 [|c4 s]]]]; simpl; try discriminate.
    intros H. injection H as H1 H2 H3.
    apply lower_char_n in H1, H3. apply lower_char_a in H2.
    unfold nan_spellings.
    destruct H1 as [-> | ->], H2 as [-> | ->], H3 as [-> | ->];
      repeat (first [ apply list_elem_of_here | apply list_elem_of_further ]).
  - unfold nan_spellings. intros H.
    repeat (apply elem_of_cons in H as [-> | H]; [reflexivity |]).
    by apply elem_of_nil in H.
Qed.

Lemma lstrip_chars_nil (l : list ascii) :
  lstrip_chars l = [] ↔ forallb isspace l = true.
Proof.
  induction l as [|c l IH]; simpl; [done |].
  destruct (isspace c); simpl; [done |]. split; discriminate.
Qed.

Lemma lstrip_chars_blank (l : list ascii) :
  forallb isspace (lstrip_chars l) = true ↔ forallb isspace l = true.
Proof.
  induction l as [|c l IH]; simpl; [done |].
  destruct (isspace c) eqn:Hc; simpl; [done |]. by rewrite Hc.
Qed.

Lemma forallb_rev {A : Type} (f : A → bool) (l : list A) :
  forallb f (rev l) = forallb f l.
Proof.
  induction l as [|x l IH]; simpl; [done |].
  rewrite forallb_app, IH. simpl. destruct (f x), (forallb f l); done.
Qed.

(** [s.strip() == ''] holds exactly for the blank strings. *)
Lemma strip_empty_iff (s : string) : strip s = "" ↔ blank s = true.
Proof.
  unfold strip, blank, rstrip_chars.
  set (l := list_ascii_of_string s).
  transitivity (rev (lstrip_chars (rev (lstrip_chars l))) = []).
  - split; intros H; [| by rewrite H].
    destruct (rev _) as [|c r]; [done | discriminate].
  - transitivity (lstrip_chars (rev (lstrip_chars l)) = []).
    + split; intros H; [| by rewrite H].
      apply (f_equal (@rev ascii)) in H. by rewrite rev_involutive in H.
    + by rewrite lstrip_chars_nil, forallb_rev, lstrip_chars_blank.
Qed.

Lemma SFeqb_refl (x : spec_float) : x ≠ S754_nan → SFeqb x x = true.
Proof.
  intros Hx. unfold SFeqb, SFcompare.
  destruct x as [s | s | | s m e]; try done; try (by destruct s).
  rewrite Z.compare_refl, Pos.compare_cont_refl. by destruct s.
Qed.

Lemma lower_repr_not_nan (l : list repr_char) :
  lower (string_of_list_ascii (repr_ascii <$> l)) ≠ "nan".
Proof.
  destruct l as [|r l]; simpl; [discriminate |].
  intros H. injection H as H _. destruct r; discriminate.
Qed.

(** [_is_nan] answers [True] on the not-a-number float and on no other. *)
Lemma _is_nan_iff (x : spec_float) : _is_nan x = true ↔ x = S754_nan.
Proof.
  split; [| by intros ->].
  intros H. destruct (decide (x = S754_nan)) as [| Hx]; [done |].
  unfold _is_nan in H. rewrite (SFeqb_refl x Hx) in H. simpl in H.
  apply bool_decide_eq_true_1 in H. exfalso.
  destruct x as [s | [] | | s m e]; try done; simpl in H;
    first [ discriminate | by apply lower_repr_not_nan in H ].
Qed.

Lemma _is_invalid_string_spec (s : string) :
  _is_invalid_string s = blank s || bool_decide (s ∈ nan_spellings).
Proof.
  unfold _is_invalid_string. f_equal.
  - destruct (blank s) eqn:Hb.
    + apply bool_decide_eq_true_2. by apply strip_empty_iff.
    + apply bool_decide_eq_false_2. rewrite strip_empty_iff. congruence.
  - apply bool_decide_ext, lower_nan_iff.
Qed.

(** ** Dicts *)

Lemma dict_set_fresh (k : string) (v v0 : value) (pre post : dict) :
  k ∉ pre.*1 → dict_set k v (pre ++ (k, v0) :: post) = pre ++ (k, v) :: post.
Proof.
  induction pre as [|[k' v'] pre IH]; simpl; intros Hk.
  - by rewrite decide_True.
  - apply not_elem_of_cons in Hk as [Hne Hk].
    rewrite decide_False by done. by rewrite IH.
Qed.

Lemma dict_get_fresh (k : string) (v : value) (pre post : dict) :
  k ∉ pre.*1 → dict_get k (pre ++ (k, v) :: post) = Some v.
Proof.
  induction pre as [|[k' v'] pre IH]; simpl; intros Hk.
  - by rewrite decide_True.
  - apply not_elem_of_cons in Hk as [Hne Hk].
    rewrite decide_False by done. by apply IH.
Qed.

(** A loop over the items of a dict that rewrites each value in place
    computes a map over the values. *)
Lemma foldl_items_map (f : value → value) (step : dict → string * value → dict) :
  (∀ pre k v post,
     k ∉ pre.*1 → step (pre ++ (k, v) :: post) (k, v) = pre ++ (k, f v) :: post) →
  ∀ d : dict, NoDup (dict_keys d) → foldl step d d = prod_map id f <$> d.
Proof.
  intros Hstep d Hd.
  enough (H : ∀ post pre,
             NoDup (pre.*1 ++ post.*1) →
             foldl step (pre ++ post) post = pre ++ (prod_map id f <$> post)).
  { apply (H d []). exact Hd. }
  induction post as [|[k v] post IH]; intros pre Hnd; simpl.
  - done.
  - assert (Hk : k ∉ pre.*1).
    { apply NoDup_app in Hnd as (_ & Hdisj & _).
      intros Hin. apply (Hdisj k Hin). simpl. apply list_elem_of_here. }
    rewrite Hstep by done.
    replace (pre ++ (k, f v) :: post) with ((pre ++ [(k, f v)]) ++ post)
      by (by rewrite <- app_assoc).
    rewrite IH.
    + by rewrite <- app_assoc.
    + rewrite fmap_app. simpl. rewrite <- app_assoc. simpl.
      by rewrite (fmap_cons fst) in Hnd.
Qed.

Lemma clean_item_fresh (pre post : dict) (k : string) (v : value) :
  k ∉ pre.*1 →
  clean_item (pre ++ (k, v) :: post) (k, v) = pre ++ (k, spec_normalize v) :: post.
Proof.
  intros Hk. unfold clean_item, spec_normalize, spec_invalid.
  destruct v as [| b | z | x | s | iso | | ty a | items | items | items]; try done.
  - destruct (_is_nan x) eqn:Hx.
    + apply _is_nan_iff in Hx as ->. by apply dict_set_fresh.
    + by destruct x.
  - rewrite _is_invalid_string_spec.
    destruct (blank s || bool_decide (s ∈ nan_spellings)); [| done].
    by apply dict_set_fresh.
Qed.

(** [_clean_record] applies the rule of the specification to the value of
    every key, and keeps the keys and their order. *)
Lemma _clean_record_map (record : dict) :
  NoDup (dict_keys record) →
  _clean_record record = prod_map id spec_normalize <$> record.
Proof.
  intros Hnd. unfold _clean_record.
  apply (foldl_items_map spec_normalize clean_item); [| done].
  intros pre k v post Hk. by apply clean_item_fresh.
Qed.

(** ** Duplicates *)

Section keep_unseen.
Context {K : Type} `{EqDecision K}.

Lemma first_occurrences_inj {K' : Type} `{EqDecision K'} (g : K → K')
    (key_of : list value → K) (l : list (list value)) :
  Inj (=) (=) g →
  first_occurrences (g ∘ key_of) l = first_occurrences key_of l.
Proof.
  intros Hg. unfold first_occurrences. f_equal. apply imap_ext.
  intros i row _. simpl. rewrite list_fmap_compose.
  destruct (decide (key_of row ∈ key_of <$> take i l)) as [Hin | Hin].
  - rewrite decide_True; [done |]. by apply list_elem_of_fmap_2.
  - rewrite decide_False; [done |].
    intros (k & Hk & Hin')%list_elem_of_fmap. apply Hg in Hk as <-. done.
Qed.

End keep_unseen.

Lemma keep_unseen_seen (key_of : list value → list key) (seen seen' : list (list key))
    (l : list (list value)) :
  (∀ k, k ∈ seen ↔ k ∈ seen') →
  keep_unseen key_of seen l = keep_unseen key_of seen' l.
Proof.
  revert seen seen'. induction l as [|row l IH]; intros seen seen' Hs; simpl.
  - done.
  - destruct (decide (key_of row ∈ seen)) as [Hin | Hin].
    + rewrite decide_True by (by apply Hs). by apply IH.
    + rewrite decide_False by (by rewrite <- Hs). f_equal. apply IH.
      intros k. rewrite !elem_of_cons. by rewrite Hs.
Qed.

Lemma keep_unseen_key (key_of key_of' : list value → list key)
    (seen : list (list key)) (l : list (list value)) :
  (∀ row, row ∈ l → key_of row = key_of' row) →
  keep_unseen key_of seen l = keep_unseen key_of' seen l.
Proof.
  revert seen. induction l as [|row l IH]; intros seen Hk; simpl.
  - done.
  - rewrite <- (Hk row) by apply list_elem_of_here.
    destruct (decide (key_of row ∈ seen)).
    + apply IH. intros r Hr. apply Hk. by apply list_elem_of_further.
    + f_equal. apply IH. intros r Hr. apply Hk. by apply list_elem_of_further.
Qed.

(** The scan with a set of seen keys keeps the first occurrences. *)
Lemma keep_unseen_first (key_of : list value → list key) (l : list (list value)) :
  keep_unseen key_of [] l = first_occurrences key_of l.
Proof.
  enough (H : ∀ l pre,
             keep_unseen key_of (key_of <$> pre) l
             = omap id
                 (imap (λ i row,
                          if decide (key_of row ∈ (key_of <$> pre) ++ (key_of <$> take i l))
                          then None else Some row) l)).
  { apply (H l []). }
  clear l. induction l as [|row l IH]; intros pre; simpl.
  - done.
  - rewrite app_nil_r.
    assert (Hnext : keep_unseen key_of (key_of <$> pre ++ [row]) l
                    = omap id
                        (imap ((λ i r,
                                  if decide (key_of r ∈ (key_of <$> pre)
                                               ++ (key_of <$> take i (row :: l)))
                                  then None else Some r) ∘ S) l)).
    { rewrite IH. f_equal. apply imap_ext. intros i r _. simpl.
      by rewrite fmap_app, <- app_assoc. }
    destruct (decide (key_of row ∈ key_of <$> pre)) as [Hin | Hin]; simpl.
    + etrans; [| exact Hnext]. apply keep_unseen_seen. intros k.
      rewrite fmap_app, elem_of_app. simpl. rewrite list_elem_of_singleton.
      split; [by left | by intros [? | ->]].
    + f_equal. etrans; [| exact Hnext]. apply keep_unseen_seen. intros k.
      rewrite fmap_app, elem_of_app, elem_of_cons. simpl.
      rewrite list_elem_of_singleton. tauto.
Qed.

Lemma keep_unseen_sublist (key_of : list value → list key) (seen : list (list key))
    (l : list (list value)) :
  sublist (keep_unseen key_of seen l) l.
Proof.
  revert seen. induction l as [|row l IH]; intros seen; simpl.
  - constructor.
  - destruct (decide (key_of row ∈ seen)).
    + apply sublist_cons. apply IH.
    + apply sublist_skip. apply IH.
Qed.

Lemma keep_unseen_fresh (key_of : list value → list key) (seen : list (list key))
    (l : list (list value)) (row : list value) :
  row ∈ keep_unseen key_of seen l → key_of row ∉ seen.
Proof.
  revert seen. induction l as [|r l IH]; intros seen; simpl.
  - by intros ?%elem_of_nil.
  - destruct (decide (key_of r ∈ seen)) as [Hin | Hin].
    + apply IH.
    + intros [-> | Hr]%elem_of_cons; [done |].
      apply IH in Hr. intros Hs. apply Hr. by apply list_elem_of_further.
Qed.

(** No two rows that are kept have the same key. *)
Lemma keep_unseen_NoDup (key_of : list value → list key) (seen : list (list key))
    (l : list (list value)) :
  NoDup (key_of <$> keep_unseen key_of seen l).
Proof.
  revert seen. induction l as [|r l IH]; intros seen; simpl.
  - constructor.
  - destruct (decide (key_of r ∈ seen)) as [Hin | Hin]; [apply IH |].
    rewrite fmap_cons. constructor; [| apply IH].
    intros (row & Hk & Hrow)%list_elem_of_fmap.
    apply keep_unseen_fresh in Hrow. apply Hrow. rewrite <- Hk.
    apply list_elem_of_here.
Qed.

(** ** Tables *)

Lemma fit_id (row : list value) : fit (length row) row = row.
Proof.
  apply list_eq. intros i. unfold fit. rewrite list_lookup_fmap.
  destruct (decide (i < length row)) as [Hi | Hi].
  - rewrite lookup_seq_lt by done. simpl. unfold cell.
    destruct (lookup_lt_is_Some_2 row i Hi) as [x Hx]. by rewrite Hx.
  - rewrite lookup_seq_ge by lia. simpl. symmetry. apply lookup_ge_None. lia.
Qed.

Lemma length_fit (n : nat) (row : list value) : length (fit n row) = n.
Proof. unfold fit. by rewrite length_fmap, length_seq. Qed.

Lemma index_of_Some (c : string) (cols : list string) (j : nat) :
  index_of c cols = Some j → cols !! j = Some c.
Proof.
  revert j. induction cols as [|c' cols IH]; intros j; [done |]. cbn.
  destruct (decide (c = c')) as [-> | Hne]; [by intros [= <-] |].
  destruct (index_of c cols) as [i |]; [| done]. cbn. intros [= <-].
  by apply IH.
Qed.

Lemma List_filter_singleton {A : Type} (P : A → bool) (l : list A) (j : A) :
  NoDup l → j ∈ l → P j = true → (∀ x, x ∈ l → P x = true → x = j) →
  List.filter P l = [j].
Proof.
  induction l as [|x l IH]; intros Hnd Hj HP Huniq; [by apply elem_of_nil in Hj |].
  apply NoDup_cons in Hnd as [Hx Hnd]. cbn.
  destruct (P x) eqn:HPx.
  - assert (x = j) as -> by (apply Huniq; [apply list_elem_of_here | done]).
    f_equal. destruct (List.filter P l) as [|y l'] eqn:Hf; [done |]. exfalso.
    assert (Hy : In y (List.filter P l)) by (rewrite Hf; by left).
    apply filter_In in Hy as [Hy HPy]. apply list_elem_of_In in Hy.
    assert (y = j) as -> by (apply Huniq; [by apply list_elem_of_further | done]).
    done.
  - apply elem_of_cons in Hj as [-> | Hj]; [congruence |].
    apply IH; [done | done | done |].
    intros y Hy. apply Huniq. by apply list_elem_of_further.
Qed.

Lemma index_of_is_Some (c : string) (cols : list string) :
  c ∈ cols → ∃ j, index_of c cols = Some j.
Proof.
  induction cols as [|c' cols IH]; [by intros ?%elem_of_nil |]. cbn.
  destruct (decide (c = c')); [by eexists |].
  intros [? | Hin]%elem_of_cons; [done |].
  destruct (IH Hin) as [j ->]. by eexists.
Qed.

(** With distinct column names a name has one position. *)
Lemma positions_of_NoDup (c : string) (cols : list string) (j : nat) :
  NoDup cols → index_of c cols = Some j → positions_of c cols = [j].
Proof.
  intros Hnd Hj. apply index_of_Some in Hj. unfold positions_of.
  apply List_filter_singleton.
  - apply NoDup_seq.
  - apply elem_of_seq. apply lookup_lt_Some in Hj. lia.
  - by apply bool_decide_eq_true_2.
  - intros i _ Hi%bool_decide_eq_true_1. by eapply NoDup_lookup.
Qed.

(** ** The keys of the hash table *)

Lemma strip_twos_spec (p : positive) :
  ∀ e : Z,
    (e ≤ (strip_twos p e).2
     ∧ Zpos p = Zpos (strip_twos p e).1 * 2 ^ ((strip_twos p e).2 - e)
     ∧ Z.odd (Zpos (strip_twos p e).1) = true)%Z.
Proof.
  induction p as [p _ | p IH |]; intros e; cbn [strip_twos fst snd].
  - rewrite Z.sub_diag. split; [lia |]. split; [lia | done].
  - destruct (IH (e + 1)%Z) as (Hle & Hval & Hodd).
    split; [lia |]. split; [| done].
    replace ((strip_twos p (e + 1)).2 - e)%Z
      with (1 + ((strip_twos p (e + 1)).2 - (e + 1)))%Z by lia.
    rewrite Z.pow_add_r by lia. lia.
  - rewrite Z.sub_diag. split; [lia |]. split; [lia | done].
Qed.

(** A number that is not zero has one form with an odd mantissa. *)
Lemma canonical_spec (m e : Z) :
  m ≠ 0%Z →
  ∃ m0 e0,
    canonical m e = KNum m0 e0
    ∧ (e ≤ e0 ∧ m = m0 * 2 ^ (e0 - e) ∧ Z.odd m0 = true)%Z.
Proof.
  destruct m as [| p | p]; [done | |]; intros _; unfold canonical;
    pose proof (strip_twos_spec p e) as (Hle & Hval & Hodd);
    destruct (strip_twos p e) as [p' e']; cbn [fst snd] in *.
  - exists (Zpos p'), e'. done.
  - exists (Zneg p'), e'. split; [done |]. split; [done |]. split; [| done].
    change (Zneg p) with (- Zpos p)%Z. change (Zneg p') with (- Zpos p')%Z. lia.
Qed.

Lemma pow2_pos (n : Z) : (0 ≤ n → 0 < 2 ^ n)%Z.
Proof. intros. by apply Z.pow_pos_nonneg. Qed.

Lemma odd_times_pow2 (m n : Z) : (0 < n)%Z → Z.odd (m * 2 ^ n) = false.
Proof.
  intros Hn. rewrite Z.odd_mul.
  replace n with (1 + (n - 1))%Z by lia.
  rewrite Z.pow_add_r by lia. rewrite Z.odd_mul. cbn. apply andb_false_r.
Qed.

(** Two forms with odd mantissas of one number are one form. *)
Lemma odd_form_unique (m0 m0' e0 e0' k : Z) :
  (k ≤ e0 → k ≤ e0' → Z.odd m0 = true → Z.odd m0' = true →
   m0 * 2 ^ (e0 - k) = m0' * 2 ^ (e0' - k) → m0 = m0' ∧ e0 = e0')%Z.
Proof.
  intros Hk Hk' Hodd Hodd' Heq.
  destruct (Z.lt_trichotomy e0 e0') as [Hlt | [-> | Hlt]].
  - exfalso.
    replace (e0' - k)%Z with ((e0' - e0) + (e0 - k))%Z in Heq by lia.
    rewrite Z.pow_add_r, Z.mul_assoc in Heq by lia.
    apply Z.mul_cancel_r in Heq; [| pose proof (pow2_pos (e0 - k)); lia].
    rewrite Heq, odd_times_pow2 in Hodd by lia. done.
  - apply Z.mul_cancel_r in Heq; [done |]. pose proof (pow2_pos (e0' - k)). lia.
  - exfalso.
    replace (e0 - k)%Z with ((e0 - e0') + (e0' - k))%Z in Heq by lia.
    rewrite Z.pow_add_r, Z.mul_assoc in Heq by lia.
    apply Z.mul_cancel_r in Heq; [| pose proof (pow2_pos (e0' - k)); lia].
    rewrite <- Heq, odd_times_pow2 in Hodd' by lia. done.
Qed.

(** The odd form is the key of the number: two numbers have one key when
    they are equal. *)
Lemma canonical_same_number (m e m' e' : Z) :
  canonical m e = canonical m' e' ↔ same_number (m, e) (m', e') = true.
Proof.
  unfold same_number. cbn [fst snd]. rewrite Z.eqb_eq.
  set (k := Z.min e e').
  assert (Hk : (k ≤ e)%Z) by (unfold k; lia).
  assert (Hk' : (k ≤ e')%Z) by (unfold k; lia).
  pose proof (pow2_pos (e - k)) as Hp. pose proof (pow2_pos (e' - k)) as Hp'.
  destruct (decide (m = 0%Z)) as [-> | Hm];
    destruct (decide (m' = 0%Z)) as [-> | Hm'].
  - done.
  - destruct (canonical_spec m' e' Hm') as (m0 & e0 & -> & _ & _ & Hodd).
    split; [| intros Heq; exfalso; nia].
    cbn. intros [= <- _]. done.
  - destruct (canonical_spec m e Hm) as (m0 & e0 & -> & _ & _ & Hodd).
    split; [| intros Heq; exfalso; nia].
    cbn. intros [= -> _]. done.
  - destruct (canonical_spec m e Hm) as (m0 & e0 & -> & Hle & -> & Hodd).
    destruct (canonical_spec m' e' Hm') as (m0' & e0' & -> & Hle' & -> & Hodd').
    rewrite <- !Z.mul_assoc, <- !Z.pow_add_r by lia.
    replace (e0 - e + (e - k))%Z with (e0 - k)%Z by lia.
    replace (e0' - e' + (e' - k))%Z with (e0' - k)%Z by lia.
    split.
    + by intros [= -> ->].
    + intros Heq.
      destruct (odd_form_unique m0 m0' e0 e0' k) as [-> ->]; done || lia.
Qed.

Lemma canonical_is_number (m e : Z) : ∃ m0 e0, canonical m e = KNum m0 e0.
Proof.
  destruct (decide (m = 0%Z)) as [-> | Hm]; [by eexists _, _ |].
  destruct (canonical_spec m e Hm) as (m0 & e0 & -> & _). by eexists _, _.
Qed.

(** Two cells have one key in the hash table when they are the same
    value. *)
Lemma object_key_same_value (a b : value) :
  object_key a = object_key b ↔ same_value a b = true.
Proof.
  unfold object_key, same_value.
  destruct (number a) as [[m e] |] eqn:Ha; destruct (number b) as [[m' e'] |] eqn:Hb.
  - apply canonical_same_number.
  - destruct (canonical_is_number m e) as (m0 & e0 & ->).
    destruct b as [| | | [] | | | | | | |]; done.
  - destruct (canonical_is_number m' e') as (m0 & e0 & ->).
    destruct a as [| | | [] | | | | | | |]; done.
  - destruct a as [| | | [] | | | | | | |]; try done;
      destruct b as [| | | [] | | | | | | |]; try done;
      rewrite bool_decide_eq_true; split; try by intros [= ->].
    all: try by intros [= -> ->].
    all: try by intros ->.
    all: try by intros [-> ->].
Qed.

Lemma object_key_not_missing (v : value) : object_key v ≠ KMissing.
Proof.
  unfold object_key. destruct (number v) as [[m e] |].
  - by destruct (canonical_is_number m e) as (m0 & e0 & ->).
  - by destruct v as [| | | [] | | | | | | |].
Qed.

(** Two cells have one label when they are the same cell of a record. *)
Lemma column_key_same_cell (a b : value) :
  column_key a = column_key b ↔ same_cell a b = true.
Proof.
  unfold column_key, same_cell, notna.
  destruct (isna a), (isna b); cbn [negb andb].
  - done.
  - split; [| done]. intros H. symmetry in H. by apply object_key_not_missing in H.
  - split; [| done]. intros H. by apply object_key_not_missing in H.
  - apply object_key_same_value.
Qed.

(** ** Consolidation *)

(** The first occurrences under a relation are the first occurrences of
    the keys that decide it. *)
Lemma first_by_keys {K : Type} `{EqDecision K} (key_of : list value → K)
    (same : list value → list value → bool) (l : list (list value)) :
  (∀ row row', same row row' = true ↔ key_of row = key_of row') →
  first_by same l = first_occurrences key_of l.
Proof.
  intros Hsame. unfold first_by, first_occurrences. f_equal.
  apply imap_ext. intros i row _. cbn.
  destruct (decide (key_of row ∈ key_of <$> take i l)) as [Hin | Hin].
  - apply list_elem_of_fmap in Hin as (row' & Hk & Hrow').
    rewrite (proj2 (existsb_exists (same row) (take i l))); [done |].
    exists row'. split; [by apply list_elem_of_In | by apply Hsame].
  - destruct (existsb (same row) (take i l)) eqn:Hex; [| done].
    apply existsb_exists in Hex as (row' & Hrow' & Hs).
    exfalso. apply Hin. apply list_elem_of_fmap. exists row'.
    split; [by apply Hsame | by apply list_elem_of_In].
Qed.

Lemma subset_positions_name (c : string) (cols : list string) :
  subset_positions (Some [c]) cols = positions_of c cols.
Proof.
  unfold subset_positions, positions_of. apply filter_ext. intros j.
  destruct (cols !! j) as [c' |]; [| done].
  apply bool_decide_ext. rewrite list_elem_of_singleton.
  split; [by intros -> | by intros [= ->]].
Qed.

Lemma subset_positions_all (cols : list string) :
  subset_positions None cols = seq 0 (length cols).
Proof.
  unfold subset_positions.
  induction (seq 0 (length cols)) as [|j l IH]; [done |]. cbn. by rewrite IH.
Qed.

(** With distinct column names and an 'id' column, the key of a row is the
    key of its identifier in the hash table. *)
Lemma row_key_id (df : frame) (row : list value) :
  NoDup (columns df) → has_column "id" df = true →
  row_key df (Some ["id"]) row = [object_key (cell_of df row "id")].
Proof.
  intros Hnd Hid. apply bool_decide_eq_true_1 in Hid.
  destruct (index_of_is_Some "id" (columns df) Hid) as [j Hj].
  unfold row_key, one_column, cell_of. cbn [default length].
  rewrite subset_positions_name, (positions_of_NoDup "id" _ j Hnd Hj), Hj.
  rewrite !bool_decide_true by done. done.
Qed.

(** Without an 'id' column and with one column only, it is the key of the
    one cell. *)
Lemma row_key_one (df : frame) (c : string) (row : list value) :
  columns df = [c] →
  row_key df None row = [object_key (cell row 0)].
Proof.
  intros Hc. unfold row_key, one_column. cbn [default].
  rewrite subset_positions_all, Hc. cbn [length seq fmap list_fmap].
  rewrite !bool_decide_true; [done | apply NoDup_singleton | done].
Qed.

(** With more columns, it is the labels of all the cells. *)
Lemma row_key_all (df : frame) (row : list value) :
  1 < length (columns df) →
  row_key df None row
  = (λ j, column_key (cell row j)) <$> seq 0 (length (columns df)).
Proof.
  intros Hlen. unfold row_key, one_column. cbn [default].
  rewrite subset_positions_all. rewrite bool_decide_false by lia. done.
Qed.

Lemma fmap_keys_same_record (df : frame) (row row' : list value) :
  (λ j, column_key (cell row j)) <$> seq 0 (length (columns df))
  = (λ j, column_key (cell row' j)) <$> seq 0 (length (columns df))
  ↔ same_record df row row' = true.
Proof.
  unfold same_record. induction (seq 0 (length (columns df))) as [|j l IH].
  - done.
  - cbn [fmap list_fmap forallb]. rewrite andb_true_iff, <- IH.
    rewrite <- column_key_same_cell. split.
    + by intros [= -> ->].
    + by intros [-> ->].
Qed.

(** What the deduplication keeps of a table with distinct column names. *)
Lemma unique_jobs_rows (consolidated : frame) :
  NoDup (columns consolidated) →
  rows (unique_jobs_of consolidated)
  = if has_column "id" consolidated
    then first_by (same_identifier consolidated) (rows consolidated)
    else match columns consolidated with
         | [] => rows consolidated
         | [_] =>
             first_by (λ row row', same_value (cell row 0) (cell row' 0))
               (rows consolidated)
         | _ :: _ :: _ => first_by (same_record consolidated) (rows consolidated)
         end.
Proof.
  intros Hnd. unfold unique_jobs_of, drop_duplicates, frame_empty.
  destruct (has_column "id" consolidated) eqn:Hid.
  - destruct (rows consolidated) as [|row0 l] eqn:Hrows.
    { rewrite (bool_decide_true ([] = [])) by done. rewrite orb_true_r.
      by rewrite Hrows. }
    rewrite <- Hrows.
    assert (columns consolidated ≠ []) as Hcols.
    { apply bool_decide_eq_true_1 in Hid. intros Hc. rewrite Hc in Hid.
      by apply elem_of_nil in Hid. }
    rewrite !bool_decide_false by (done || by rewrite Hrows). cbn [orb rows].
    rewrite keep_unseen_first. symmetry. apply first_by_keys.
    intros row row'. rewrite !row_key_id by done. unfold same_identifier.
    rewrite <- object_key_same_value. split; [by intros -> | by intros [= ->]].
  - destruct (columns consolidated) as [|c [|c' cols]] eqn:Hcols.
    + by rewrite bool_decide_true.
    + rewrite (bool_decide_false ([c] = [])) by done. cbn [orb].
      destruct (rows consolidated) as [|row0 l] eqn:Hrows.
      { rewrite bool_decide_true by done. by rewrite Hrows. }
      rewrite bool_decide_false by done. cbn [rows]. rewrite <- Hrows.
      rewrite keep_unseen_first. symmetry. apply first_by_keys.
      intros row row'. rewrite !(row_key_one consolidated c) by done.
      rewrite <- object_key_same_value. split; [by intros -> | by intros [= ->]].
    + rewrite (bool_decide_false (_ :: _ = [])) by done. cbn [orb].
      destruct (rows consolidated) as [|row0 l] eqn:Hrows.
      { rewrite bool_decide_true by done. by rewrite Hrows. }
      rewrite bool_decide_false by done. cbn [rows]. rewrite <- Hrows.
      rewrite keep_unseen_first. symmetry. apply first_by_keys.
      intros row row'.
      rewrite !row_key_all by (rewrite Hcols; cbn [length]; lia).
      symmetry. apply fmap_keys_same_record.
Qed.

Lemma drop_duplicates_columns (subset : option (list string)) (df : frame) :
  columns (drop_duplicates subset df) = columns df.
Proof. unfold drop_duplicates. by destruct (frame_empty df). Qed.

Lemma drop_duplicates_sublist (subset : option (list string)) (df : frame) :
  sublist (rows (drop_duplicates subset df)) (rows df).
Proof.
  unfold drop_duplicates. destruct (frame_empty df); [done |].
  apply keep_unseen_sublist.
Qed.

Lemma unique_jobs_columns (consolidated : frame) :
  columns (unique_jobs_of consolidated) = columns consolidated.
Proof.
  unfold unique_jobs_of.
  destruct (has_column "id" consolidated); apply drop_duplicates_columns.
Qed.

Lemma unique_jobs_sublist (consolidated : frame) :
  sublist (rows (unique_jobs_of consolidated)) (rows consolidated).
Proof.
  unfold unique_jobs_of.
  destruct (has_column "id" consolidated); apply drop_duplicates_sublist.
Qed.

(** No two rows that are kept have the same identifier. *)
Lemma unique_jobs_distinct (consolidated : frame) (i j : nat)
    (row row' : list value) :
  NoDup (columns consolidated) → has_column "id" consolidated = true →
  i < j →
  rows (unique_jobs_of consolidated) !! i = Some row →
  rows (unique_jobs_of consolidated) !! j = Some row' →
  same_identifier consolidated row row' = false.
Proof.
  intros Hnd Hid Hij Hi Hj. unfold unique_jobs_of in Hi, Hj. rewrite Hid in Hi, Hj.
  unfold drop_duplicates in Hi, Hj.
  destruct (frame_empty consolidated) eqn:Hempty.
  { unfold frame_empty in Hempty. apply orb_true_iff in Hempty as [Hc | Hr].
    - apply bool_decide_eq_true_1 in Hc. apply bool_decide_eq_true_1 in Hid.
      rewrite Hc in Hid. by apply elem_of_nil in Hid.
    - apply bool_decide_eq_true_1 in Hr. by rewrite Hr in Hi. }
  cbn [rows] in Hi, Hj.
  pose proof (keep_unseen_NoDup (row_key consolidated (Some ["id"])) []
                (rows consolidated)) as Hkeys.
  destruct (same_identifier consolidated row row') eqn:Hsame; [| done].
  exfalso. unfold same_identifier in Hsame.
  apply object_key_same_value in Hsame.
  assert (i = j); [| lia].
  eapply NoDup_lookup; [exact Hkeys | |].
  - rewrite list_lookup_fmap, Hi. cbn. reflexivity.
  - rewrite list_lookup_fmap, Hj. cbn. by rewrite !row_key_id, Hsame.
Qed.

(** C1. When the column names of the concatenated batches are distinct,
    consolidation keeps the first row of each identifier when the table
    has an 'id' column, and the first row of each whole record when it has
    none: a row stays when no row before it in the concatenation has the
    same identifier (the same record), every later one is dropped, the
    rows that stay keep their order, and no two of them have one
    identifier.  Two identifiers are the same when they are the same text
    or the same number; [None], NaN, [pd.NA] and [pd.NaT] are four
    identifiers, each the same as itself only.  Two records are the same
    when they agree field by field, two missing values agreeing; a table
    of one column and no 'id' is compared as identifiers are. *)
Theorem consolidation_keeps_first_occurrence (all_jobs : list frame) :
  let consolidated := pd_concat all_jobs in
  let unique_jobs := unique_jobs_of consolidated in
  NoDup (columns consolidated) →
  columns unique_jobs = columns consolidated
  ∧ sublist (rows unique_jobs) (rows consolidated)
  ∧ rows unique_jobs
    = (if has_column "id" consolidated
       then first_by (same_identifier consolidated) (rows consolidated)
       else match columns consolidated with
            | [] => rows consolidated
            | [_] =>
                first_by (λ row row', same_value (cell row 0) (cell row' 0))
                  (rows consolidated)
            | _ :: _ :: _ =>
                first_by (same_record consolidated) (rows consolidated)
            end)
  ∧ (∀ i j row row',
       has_column "id" consolidated = true → i < j →
       rows unique_jobs !! i = Some row → rows unique_jobs !! j = Some row' →
       same_identifier consolidated row row' = false).
Proof.
  intros consolidated unique_jobs Hnd.
  split; [apply unique_jobs_columns |].
  split; [apply unique_jobs_sublist |].
  split; [by apply unique_jobs_rows |].
  intros i j row row' Hid Hij Hi Hj.
  by apply (unique_jobs_distinct consolidated i j).
Qed.


(** ** Cleaning one record *)

Lemma dict_get_fmap (f : value → value) (k : string) (d : dict) :
  dict_get k (prod_map id f <$> d) = f <$> dict_get k d.
Proof.
  induction d as [|[k' v'] d IH]; simpl; [done |].
  destruct (decide (k = k')); [done | apply IH].
Qed.

(** C2. [_clean_record] rewrites, for every key of the record, a
    not-a-number float, a blank string and a string that is "nan" up to case
    to [None], and leaves every other value as it is; the keys and their
    order do not change. *)
Theorem clean_record_normalizes_every_field (record : dict) :
  NoDup (dict_keys record) →
  dict_keys (_clean_record record) = dict_keys record
  ∧ ∀ key v,
      dict_get key record = Some v →
      dict_get key (_clean_record record)
      = Some (if spec_invalid v then VNone else v).
Proof.
  intros Hnd. rewrite _clean_record_map by done. split.
  - unfold dict_keys. rewrite <- list_fmap_compose. by apply list_fmap_ext.
  - intros key v Hv. by rewrite dict_get_fmap, Hv.
Qed.

(** ** Column names *)

Lemma merge_names_app (acc a b : list string) :
  merge_names acc (a ++ b) = merge_names (merge_names acc a) b.
Proof. unfold merge_names. by rewrite foldl_app. Qed.

Lemma merge_names_known (acc names : list string) :
  (∀ c, c ∈ names → c ∈ acc) → merge_names acc names = acc.
Proof.
  induction names as [|c names IH]; intros Hin; simpl; [done |].
  rewrite decide_True by (apply Hin, list_elem_of_here).
  apply IH. intros c' Hc'. apply Hin. by apply list_elem_of_further.
Qed.

Lemma merge_names_NoDup_app (acc names : list string) :
  NoDup (acc ++ names) → merge_names acc names = acc ++ names.
Proof.
  revert acc. induction names as [|c names IH]; intros acc Hnd; simpl.
  - by rewrite app_nil_r.
  - assert (Hc : c ∉ acc).
    { apply NoDup_app in Hnd as (_ & Hdisj & _).
      intros Hin. apply (Hdisj c Hin). apply list_elem_of_here. }
    rewrite decide_False by done.
    change (foldl _ (acc ++ [c]) names) with (merge_names (acc ++ [c]) names).
    rewrite IH; rewrite <- app_assoc; done.
Qed.

Lemma merge_names_NoDup (acc names : list string) :
  NoDup acc → NoDup (merge_names acc names).
Proof.
  revert acc. induction names as [|c names IH]; intros acc Hnd; simpl; [done |].
  destruct (decide (c ∈ acc)) as [Hin | Hin]; apply IH; [done |].
  apply NoDup_app. repeat split; [done | | apply NoDup_singleton].
  intros c' Hc' ->%list_elem_of_singleton. done.
Qed.

Lemma merge_names_replicate (acc : list string) (c : string) (n : nat) :
  merge_names acc (replicate (S n) c) = merge_names acc [c].
Proof.
  simpl. destruct (decide (c ∈ acc)) as [Hin | Hin].
  - apply merge_names_known. by intros c' [-> _]%elem_of_replicate.
  - apply merge_names_known. intros c' [-> _]%elem_of_replicate.
    apply elem_of_app. right. apply list_elem_of_here.
Qed.

(** Columns that repeat a name collapse to the names in order. *)
Lemma merge_names_repeats (f : string → nat) (names acc : list string) :
  merge_names acc (names ≫= λ c, replicate (S (f c)) c) = merge_names acc names.
Proof.
  revert acc. induction names as [|c names IH]; intros acc; [done |].
  change ((c :: names) ≫= _)
    with (replicate (S (f c)) c ++ (names ≫= λ c, replicate (S (f c)) c)).
  rewrite merge_names_app, merge_names_replicate, IH.
  by rewrite <- merge_names_app.
Qed.

Lemma dict_keys_set (k : string) (v : value) (d : dict) :
  dict_keys (dict_set k v d)
  = if decide (k ∈ dict_keys d) then dict_keys d else dict_keys d ++ [k].
Proof.
  unfold dict_keys. induction d as [|[k' v'] d IH]; [done |].
  cbn [dict_set]. destruct (decide (k = k')) as [-> | Hne].
  - rewrite !fmap_cons. cbn [fst].
    rewrite decide_True by apply list_elem_of_here. done.
  - rewrite !fmap_cons, IH. cbn [fst].
    destruct (decide (k ∈ d.*1)) as [Hin | Hin].
    + rewrite decide_True by (by apply list_elem_of_further). done.
    + rewrite decide_False; [done |]. by intros [? | ?]%elem_of_cons.
Qed.

Lemma dict_keys_of_items (items : list (string * value)) :
  dict_keys (dict_of_items items) = merge_names [] items.*1.
Proof.
  unfold dict_of_items.
  enough (H : ∀ d, dict_keys (foldl (λ d kv, dict_set kv.1 kv.2 d) d items)
                   = merge_names (dict_keys d) items.*1) by apply (H []).
  induction items as [|[k v] items IH]; intros d; simpl; [done |].
  rewrite IH, dict_keys_set. by destruct (decide (k ∈ dict_keys d)).
Qed.

(** The keys of every record of [to_dict]: the column names, once each. *)
Lemma to_dict_keys (df : frame) (record : dict) :
  record ∈ to_dict df → dict_keys record = merge_names [] (columns df).
Proof.
  unfold to_dict. intros (row & -> & _)%list_elem_of_fmap.
  rewrite dict_keys_of_items, fst_zip; [done |]. by rewrite length_fit.
Qed.

(** The columns of a table built from records that all have the keys [ks]. *)
Lemma records_columns_same (ks : list string) (rs : list dict) :
  NoDup ks → rs ≠ [] → (∀ r, r ∈ rs → dict_keys r = ks) → records_columns rs = ks.
Proof.
  intros Hks Hne Hall. unfold records_columns.
  destruct rs as [|r rs]; [done |]. simpl.
  rewrite (Hall r) by apply list_elem_of_here.
  rewrite (merge_names_NoDup_app [] ks) by done. simpl.
  assert (Hrs : ∀ r', r' ∈ rs → dict_keys r' = ks).
  { intros r' Hr'. apply Hall. by apply list_elem_of_further. }
  clear Hall Hne. induction rs as [|r' rs IH]; simpl; [done |].
  rewrite (Hrs r') by apply list_elem_of_here.
  change (foldl _ ks ks) with (merge_names ks ks).
  rewrite merge_names_known by done.
  apply IH. intros r'' Hr''. apply Hrs. by apply list_elem_of_further.
Qed.

(** ** The cleaner on tables *)

Lemma ESSENTIAL_COLUMNS_NoDup : NoDup ESSENTIAL_COLUMNS.
Proof. apply (bool_decide_unpack (NoDup ESSENTIAL_COLUMNS)). by vm_compute. Qed.

Lemma to_dict_NoDup (df : frame) (record : dict) :
  record ∈ to_dict df → NoDup (dict_keys record).
Proof.
  intros Hr. rewrite (to_dict_keys df record Hr).
  apply merge_names_NoDup. constructor.
Qed.

Lemma positions_of_length (c : string) (cols : list string) :
  c ∈ cols → ∃ n, length (positions_of c cols) = S n.
Proof.
  intros (j & Hj)%list_elem_of_lookup. unfold positions_of.
  destruct (List.filter _ _) as [|j' l] eqn:Hf; [| by eexists].
  exfalso. assert (Hin : In j []); [| done].
  rewrite <- Hf. apply filter_In. split.
  - apply in_seq. apply lookup_lt_Some in Hj. lia.
  - by apply bool_decide_eq_true_2.
Qed.

Lemma fst_pair_fmap (c : string) (l : list nat) :
  ((λ j, (c, j)) <$> l).*1 = replicate (length l) c.
Proof.
  induction l as [|j l IH]; [done |].
  rewrite !fmap_cons. cbn [fst length replicate]. by rewrite IH.
Qed.

Lemma select_columns_names (cols names : list string) :
  (∀ c, c ∈ names → c ∈ cols) →
  merge_names [] (names ≫= λ c, (λ j, (c, j)) <$> positions_of c cols).*1
  = merge_names [] names.
Proof.
  intros Hin.
  rewrite <- (merge_names_repeats (λ c, pred (length (positions_of c cols)))
                names []).
  f_equal. induction names as [|c names IH]; [done |].
  change ((c :: names) ≫= ?f) with (f c ++ (names ≫= f)).
  rewrite fmap_app, fst_pair_fmap, IH.
  - destruct (positions_of_length c cols) as [n Hn];
      [apply Hin, list_elem_of_here |].
    by rewrite Hn.
  - intros c' Hc'. apply Hin. by apply list_elem_of_further.
Qed.

(** The allow-listed columns that exist in a table with the columns [cols]. *)
Lemma available_columns_NoDup (jobs : frame) :
  NoDup (List.filter (λ col, has_column col jobs) ESSENTIAL_COLUMNS).
Proof.
  apply NoDup_ListNoDup, List.NoDup_filter, NoDup_ListNoDup,
    ESSENTIAL_COLUMNS_NoDup.
Qed.

Lemma _filter_columns_names (jobs : frame) :
  merge_names [] (columns (_filter_columns jobs))
  = List.filter (λ col, has_column col jobs) ESSENTIAL_COLUMNS.
Proof.
  unfold _filter_columns, select_columns. cbn [columns].
  rewrite select_columns_names.
  - apply (merge_names_NoDup_app []), available_columns_NoDup.
  - intros c [_ Hc]%list_elem_of_In%filter_In.
    by apply bool_decide_eq_true_1 in Hc.
Qed.

Lemma _remove_invalid_values_columns (jobs : frame) :
  rows jobs ≠ [] →
  columns (_remove_invalid_values jobs) = merge_names [] (columns jobs).
Proof.
  intros Hrows. unfold _remove_invalid_values. cbn [DataFrame_of_records columns].
  set (jobs2 := fill_missing jobs).
  assert (Hcols : columns jobs2 = columns jobs) by done.
  assert (Hne : to_dict jobs2 ≠ []).
  { unfold to_dict, jobs2, fill_missing. cbn [rows].
    destruct (rows jobs); [done | discriminate]. }
  apply records_columns_same.
  - apply merge_names_NoDup. constructor.
  - destruct (to_dict jobs2); [done | discriminate].
  - intros r (r0 & -> & Hr0)%list_elem_of_fmap.
    rewrite _clean_record_map by (by eapply to_dict_NoDup).
    rewrite <- Hcols, <- (to_dict_keys jobs2 r0 Hr0).
    unfold dict_keys. rewrite <- list_fmap_compose. by apply list_fmap_ext.
Qed.

Lemma _remove_invalid_values_no_rows (jobs : frame) :
  rows jobs = [] → _remove_invalid_values jobs = Frame [] [].
Proof.
  intros Hrows. unfold _remove_invalid_values, to_dict, fill_missing.
  cbn [rows]. by rewrite Hrows.
Qed.

Lemma List_filter_sublist {A : Type} (f : A → bool) (l : list A) :
  sublist (List.filter f l) l.
Proof.
  induction l as [|x l IH]; simpl; [constructor |].
  destruct (f x); by constructor.
Qed.

(** The columns of what [clean] returns. *)
Lemma clean_columns (jobs df : frame) :
  clean (Some jobs) = Some df →
  columns df = List.filter (λ col, has_column col jobs) ESSENTIAL_COLUMNS.
Proof.
  unfold clean. destruct (frame_empty jobs); [done |].
  set (jobs1 := drop_without_description jobs).
  assert (Hcols : columns jobs1 = columns jobs).
  { unfold jobs1, drop_without_description.
    by destruct (has_column "description" jobs). }
  destruct (frame_empty _) eqn:Hempty; [done |]. intros [= <-].
  destruct (rows (_filter_columns jobs1)) as [|row l] eqn:Hrows.
  - rewrite _remove_invalid_values_no_rows in Hempty by done. done.
  - rewrite _remove_invalid_values_columns by (by rewrite Hrows).
    rewrite _filter_columns_names. unfold has_column. by rewrite Hcols.
Qed.

(** C10. The table the cleaner returns has its columns in allow-list order:
    they are [ESSENTIAL_COLUMNS] restricted to the names the input has, a
    subsequence of the allow-list, whatever the order of the input's
    columns. *)
Theorem clean_columns_in_allow_list_order (jobs df : frame) :
  clean (Some jobs) = Some df →
  columns df = List.filter (λ col, bool_decide (col ∈ columns jobs)) ESSENTIAL_COLUMNS
  ∧ sublist (columns df) ESSENTIAL_COLUMNS
  ∧ ∀ jobs' df',
      columns jobs' ≡ₚ columns jobs →
      clean (Some jobs') = Some df' →
      columns df' = columns df.
Proof.
  intros Hclean. pose proof (clean_columns jobs df Hclean) as Hcols.
  split; [exact Hcols |]. split.
  - rewrite Hcols. apply List_filter_sublist.
  - intros jobs' df' Hperm Hclean'.
    rewrite Hcols, (clean_columns jobs' df' Hclean').
    apply filter_ext. intros c. unfold has_column.
    apply bool_decide_ext. by rewrite Hperm.
Qed.

(** C5 (amended). When the table is empty after the description gate, the
    projection and the normalization, [clean] returns [None], and it never
    returns an empty table; the same [None] comes back for an input that is
    [None] or empty, so the return value does not tell the two apart. *)
Theorem clean_no_data_signal (jobs : frame) :
  frame_empty
    (_remove_invalid_values (_filter_columns (drop_without_description jobs)))
  = true →
  clean (Some jobs) = None
  ∧ clean None = None
  ∧ (∀ never_populated : frame,
       frame_empty never_populated = true → clean (Some never_populated) = None)
  ∧ (∀ input df, clean input = Some df → frame_empty df = false).
Proof.
  intros Hempty. split; [| split; [| split]].
  - unfold clean. rewrite Hempty. by destruct (frame_empty jobs).
  - done.
  - intros never_populated Hnever. unfold clean. by rewrite Hnever.
  - clear Hempty. intros [input |] df; [| done]. unfold clean.
    destruct (frame_empty input); [done |].
    destruct (frame_empty (_remove_invalid_values _)) eqn:Hdf; [done |].
    by intros [= <-].
Qed.

(** ** The sweep before the JSON file *)

Lemma dict_set_same (k : string) (v : value) (d : dict) :
  dict_get k d = Some v → dict_set k v d = d.
Proof.
  induction d as [|[k' v'] d IH]; simpl; [done |].
  destruct (decide (k = k')) as [-> | Hne].
  - by intros [= ->].
  - intros Hd. by rewrite IH.
Qed.

Lemma dict_get_keys (k : string) (d : dict) :
  k ∈ dict_keys d → ∃ v, dict_get k d = Some v.
Proof.
  unfold dict_keys. induction d as [|[k' v'] d IH]; simpl.
  - by intros ?%elem_of_nil.
  - destruct (decide (k = k')) as [-> | Hne]; [by eexists |].
    intros [? | Hin]%elem_of_cons; [done | by apply IH].
Qed.

Ltac step :=
  cbn -[_clean_for_json to_dict sweep_record encode_document String.append].

Ltac run_monad :=
  unfold mbind, M_bind, mret, M_ret, raise, records_at, frame_at, store, emit,
    outside; cbn [env heap trace].

Lemma sweep_item_run (l i : nat) (key : string) (rs : list dict) (record : dict)
    (w : world) :
  heap w !! l = Some (ORecords rs) →
  rs !! i = Some record →
  key ∈ dict_keys record →
  sweep_item l i key w
  = (Ok tt, World (env w)
              (<[l := ORecords (<[i := sweep_key record key]> rs)]> (heap w))
              (trace w)).
Proof.
  intros Hl Hi Hkey. destruct (dict_get_keys key record Hkey) as [v Hv].
  assert (Hsame : w = World (env w)
                        (<[l := ORecords (<[i := record]> rs)]> (heap w))
                        (trace w)).
  { rewrite (list_insert_id rs i record Hi), list_insert_id by done.
    by destruct w. }
  unfold sweep_item, sweep_key, get_item, set_item. run_monad.
  rewrite Hl, Hi, Hv. cbn.
  destruct v as [| b | z | x | s | iso | | ty a | items | items | items]; cbn;
    try (rewrite (dict_set_same key _ record Hv); exact (f_equal _ Hsame)).
  - destruct (negb (SFeqb x x) || _); cbn.
    + by rewrite Hl, Hi.
    + rewrite (dict_set_same key _ record Hv). exact (f_equal _ Hsame).
  - destruct (bool_decide (lower s = "nan")); cbn.
    + by rewrite Hl, Hi.
    + rewrite (dict_set_same key _ record Hv). exact (f_equal _ Hsame).
Qed.

Lemma sweep_key_keys (record : dict) (key : string) :
  dict_keys (sweep_key record key) = dict_keys record.
Proof.
  unfold sweep_key. destruct (dict_get key record) as [v |] eqn:Hv; [| done].
  rewrite dict_keys_set. destruct (decide (key ∈ dict_keys record)) as [| Hn]; [done |].
  exfalso. apply Hn. clear Hn. unfold dict_keys.
  induction record as [|[k' v'] d IH]; simpl in *; [done |].
  destruct (decide (key = k')) as [-> | Hne]; [apply list_elem_of_here |].
  apply list_elem_of_further. by apply IH.
Qed.

(** The inner loop of [_clean_for_json] on record [i]. *)
Lemma sweep_keys_run (l i : nat) (keys : list string) :
  ∀ (rs : list dict) (record : dict) (w : world),
    heap w !! l = Some (ORecords rs) →
    rs !! i = Some record →
    (∀ k, k ∈ keys → k ∈ dict_keys record) →
    for_each keys (sweep_item l i) w
    = (Ok tt, World (env w)
                (<[l := ORecords (<[i := foldl sweep_key record keys]> rs)]> (heap w))
                (trace w)).
Proof.
  induction keys as [|key keys IH]; intros rs record w Hl Hi Hkeys.
  - cbn. rewrite (list_insert_id rs i record Hi), list_insert_id by done.
    by destruct w.
  - cbn [for_each foldl]. unfold mbind, M_bind.
    rewrite (sweep_item_run l i key rs record w Hl Hi)
      by apply Hkeys, list_elem_of_here.
    assert (Hll : l < length (heap w)) by (by eapply lookup_lt_Some).
    assert (Hii : i < length rs) by (by eapply lookup_lt_Some).
    rewrite (IH (<[i := sweep_key record key]> rs) (sweep_key record key)).
    + cbn [env heap trace].
      by rewrite list_insert_insert_eq, list_insert_insert_eq.
    + cbn [heap]. by apply list_lookup_insert_eq.
    + by apply list_lookup_insert_eq.
    + intros k Hk. rewrite sweep_key_keys. apply Hkeys.
      by apply list_elem_of_further.
Qed.

(** The outer loop of [_clean_for_json], from record [j] on. *)
Lemma sweep_records_run (l : nat) (n : nat) :
  ∀ (j : nat) (rs : list dict) (w : world),
    heap w !! l = Some (ORecords rs) →
    j + n = length rs →
    for_each (seq j n) (λ i,
      rs ← records_at l;
      match rs !! i with
      | None => raise IndexError
      | Some record => for_each (dict_keys record) (sweep_item l i)
      end) w
    = (Ok tt, World (env w)
                (<[l := ORecords (take j rs ++ (sweep_record <$> drop j rs))]> (heap w))
                (trace w)).
Proof.
  induction n as [|n IH]; intros j rs w Hl Hlen.
  - cbn. rewrite drop_ge by lia. rewrite fmap_nil, app_nil_r.
    rewrite take_ge by lia. rewrite list_insert_id by done. by destruct w.
  - cbn [seq for_each].
    assert (Hj : j < length rs) by lia.
    destruct (lookup_lt_is_Some_2 rs j Hj) as [record Hrec].
    assert (Hll : l < length (heap w)) by (by eapply lookup_lt_Some).
    unfold mbind at 1. unfold M_bind at 1.
    unfold mbind at 1. unfold M_bind at 1. unfold records_at at 1.
    rewrite Hl, Hrec.
    rewrite (sweep_keys_run l j (dict_keys record) rs record w Hl Hrec) by done.
    rewrite (IH (S j) (<[j := sweep_record record]> rs)).
    + cbn [env heap trace]. rewrite list_insert_insert_eq. do 3 f_equal.
      rewrite take_insert_lt by lia. rewrite drop_insert_lt by lia.
      rewrite (take_S_r rs j record Hrec).
      rewrite insert_app_r_alt by (rewrite length_take; lia).
      rewrite length_take, Nat.min_l by lia. rewrite Nat.sub_diag. cbn.
      rewrite (drop_S rs record j Hrec), fmap_cons.
      by rewrite <- app_assoc.
    + cbn [heap]. by apply list_lookup_insert_eq.
    + rewrite length_insert. lia.
Qed.

(** [_clean_for_json] replaces every record by its swept record, and does
    nothing else. *)
Lemma _clean_for_json_run (l : nat) (rs : list dict) (w : world) :
  heap w !! l = Some (ORecords rs) →
  _clean_for_json l w
  = (Ok tt, World (env w) (<[l := ORecords (sweep_record <$> rs)]> (heap w)) (trace w)).
Proof.
  intros Hl. unfold _clean_for_json.
  unfold mbind at 1. unfold M_bind at 1. unfold records_at at 1. rewrite Hl.
  by rewrite (sweep_records_run l (length rs) 0 rs w Hl).
Qed.

Lemma sweep_record_map (record : dict) :
  NoDup (dict_keys record) →
  sweep_record record = prod_map id json_sweep <$> record.
Proof.
  intros Hnd. unfold sweep_record, dict_keys.
  rewrite (foldl_fmap sweep_key record record fst).
  apply (foldl_items_map json_sweep (λ d kv, sweep_key d kv.1)); [| done].
  intros pre k v post Hk. cbn [fst]. unfold sweep_key.
  rewrite dict_get_fresh by done. by apply dict_set_fresh.
Qed.

Lemma nan_spelling_not_blank (s : string) :
  s ∈ nan_spellings → blank s = false.
Proof.
  unfold nan_spellings. intros H.
  repeat (apply elem_of_cons in H as [-> | H]; [reflexivity |]).
  by apply elem_of_nil in H.
Qed.

(** The sweep of the exporter, in the words of the rule of the cleaner. *)
Lemma json_sweep_spec (v : value) : json_sweep v = spec_sweep v.
Proof.
  unfold spec_sweep, spec_normalize.
  destruct v as [| b | z | x | s | iso | | ty a | items | items | items]; try done.
  - cbn. change (negb (SFeqb x x) || _) with (_is_nan x).
    destruct (_is_nan x) eqn:Hx.
    + by apply _is_nan_iff in Hx as ->.
    + by destruct x.
  - cbn. rewrite (bool_decide_ext _ _ (lower_nan_iff s)).
    destruct (bool_decide (s ∈ nan_spellings)) eqn:Hs.
    + apply bool_decide_eq_true_1 in Hs.
      by rewrite (nan_spelling_not_blank s Hs).
    + by destruct (blank s).
Qed.

(** C6 (amended). On records with unique keys, [_clean_for_json] rewrites
    every value by the rule of the cleaner except on blank strings: a
    not-a-number float and a string that is "nan" up to case become [None],
    a blank string stays, every other value stays; [_clean_record] differs
    on the blank strings only, which it rewrites to [None]. *)
Theorem export_sweep_matches_cleaner_except_blank (l : nat) (rs : list dict)
    (w : world) :
  heap w !! l = Some (ORecords rs) →
  Forall (λ record, NoDup (dict_keys record)) rs →
  _clean_for_json l w
  = (Ok tt, World (env w)
              (<[l := ORecords (map_values spec_sweep <$> rs)]> (heap w))
              (trace w))
  ∧ _clean_record <$> rs = map_values spec_normalize <$> rs
  ∧ ∀ v, if blank_string v
         then spec_sweep v = v ∧ spec_normalize v = VNone
         else spec_sweep v = spec_normalize v.
Proof.
  intros Hl Hnd. split; [| split].
  3: { intros v. unfold spec_sweep, spec_normalize.
       destruct v as [| b | z | x | s | iso | | ty a | items | items | items]; try done.
       cbn. by destruct (blank s). }
  - rewrite (_clean_for_json_run l rs w Hl). do 4 f_equal.
    apply Forall_fmap_ext_1. eapply Forall_impl; [exact Hnd |].
    intros record Hrec. cbn beta. rewrite sweep_record_map by done.
    apply list_fmap_ext. intros i [k v] _. cbn. by rewrite json_sweep_spec.
  - apply Forall_fmap_ext_1. eapply Forall_impl; [exact Hnd |].
    intros record Hrec. by apply _clean_record_map.
Qed.

(** ** The export, step by step *)

(** [export] on a table that is not empty: the CSV file, the sweep on fresh
    records, the JSON file, the sizes; the first failure ends it. *)
Lemma export_run (self : JobDataExporter) (l : nat) (df : frame) (base : string)
    (w : world) :
  heap w !! l = Some (ODataFrame df) →
  frame_empty df = false →
  export self (Some l) base w
  = let timestamp := strftime_now (env w) in
    let csv_file := output_dir self +:+ "/" +:+ base +:+ "_" +:+ timestamp +:+ ".csv" in
    let json_file := output_dir self +:+ "/" +:+ base +:+ "_" +:+ timestamp +:+ ".json" in
    let rs := sweep_record <$> to_dict df in
    let h := heap w ++ [ORecords rs] in
    let '(ok1, e1) := fs_write csv_file (CsvBody df) (env w) in
    let t1 := trace w ++ [EvWrite csv_file (CsvBody df) ok1] in
    if ok1 then
      let '(ok2, e2) := fs_open json_file e1 in
      let t2 := t1 ++ [EvOpen json_file ok2] in
      if ok2 then
        match encode_document rs with
        | Raise e =>
            let body := JsonTruncated (document_written rs) in
            let '(ok3, e3) := fs_write json_file body e2 in
            let t3 := t2 ++ [EvWrite json_file body ok3] in
            (Ok false,
             World e3 h (t3 ++ [EvError (if ok3 then e else OSError)]))
        | Ok doc =>
            let '(ok3, e3) := fs_write json_file (JsonBody doc) e2 in
            let t3 := t2 ++ [EvWrite json_file (JsonBody doc) ok3] in
            if ok3 then
              if exporter_verbose self then
                let ok4 := fs_stat csv_file e3 in
                let t4 := t3 ++ [EvStat csv_file ok4] in
                if ok4 then
                  let ok5 := fs_stat json_file e3 in
                  let t5 := t4 ++ [EvStat json_file ok5] in
                  if ok5 then (Ok true, World e3 h t5)
                  else (Ok false, World e3 h (t5 ++ [EvError OSError]))
                else (Ok false, World e3 h (t4 ++ [EvError OSError]))
              else (Ok true, World e3 h t3)
            else (Ok false, World e3 h (t3 ++ [EvError OSError]))
        end
      else (Ok false, World e2 h (t2 ++ [EvError OSError]))
    else (Ok false, World e1 (heap w) (t1 ++ [EvError OSError])).
Proof.
  intros Hl Hempty. cbv zeta.
  set (csv_file := output_dir self +:+ _).
  set (json_file := output_dir self +:+ "/" +:+ base +:+ "_" +:+ _ +:+ ".json").
  assert (Hfresh : ∀ e t,
            _clean_for_json (length (heap w))
              (World e (heap w ++ [ORecords (to_dict df)]) t)
            = (Ok tt, World e (heap w ++ [ORecords (sweep_record <$> to_dict df)]) t)).
  { intros e t.
    rewrite (_clean_for_json_run _ (to_dict df)) by apply list_lookup_middle, eq_refl.
    cbn [env heap trace]. do 2 f_equal.
    rewrite <- (Nat.add_0_r (length (heap w))). by rewrite insert_app_r. }
  unfold export, try_except, _generate_timestamp, _export_csv, _export_json,
    write_file, open_file, _print_export_summary, stat_file, alloc.
  run_monad.
  assert (Hlast : ∀ o, (heap w ++ [o]) !! length (heap w) = Some o)
    by (intros o; by apply list_lookup_middle).
  repeat first [ rewrite Hl | rewrite Hempty | progress step ].
  fold csv_file json_file.
  destruct (fs_write csv_file (CsvBody df) (env w)) as [[] e1]; [| done].
  repeat first [ rewrite Hl | rewrite Hfresh | progress step ].
  destruct (fs_open json_file e1) as [[] e2]; [| done].
  repeat first [ rewrite Hlast | progress step ].
  destruct (encode_document _) as [doc | e].
  2: { repeat first [ progress step ].
       by destruct (fs_write json_file _ e2) as [[] e3]. }
  repeat first [ progress step ].
  destruct (fs_write json_file (JsonBody doc) e2) as [[] e3]; [| done].
  repeat first [ progress step ].
  destruct (exporter_verbose self); [| done].
  repeat first [ progress step ].
  destruct (fs_stat csv_file e3); [| done].
  repeat first [ progress step ].
  by destruct (fs_stat json_file e3).
Qed.

(** C9. [export] never raises: it answers [True] or [False]; and whatever
    the disk does and whether the document can be encoded or not, every
    object that was in memory before the call, the table that is exported
    among them, is the same after it.  The records that are swept are fresh
    ones. *)
Theorem export_leaves_memory_unchanged (self : JobDataExporter) (l : nat)
    (df : frame) (base : string) (w : world) :
  heap w !! l = Some (ODataFrame df) →
  (∃ b w',
     export self (Some l) base w = (Ok b, w')
     ∧ heap w' !! l = Some (ODataFrame df)
     ∧ ∀ l' o, heap w !! l' = Some o → heap w' !! l' = Some o)
  ∧ export self None base w = (Ok false, w).
Proof.
  intros Hl. split; [| done].
  destruct (frame_empty df) eqn:Hempty.
  - exists false, w. split; [| done].
    unfold export, frame_at. run_monad. rewrite Hl. cbn. by rewrite Hempty.
  - rewrite (export_run self l df base w Hl Hempty). cbv zeta.
    assert (Hext : ∀ o' l' o,
              heap w !! l' = Some o → (heap w ++ [o']) !! l' = Some o)
      by (intros; by apply lookup_app_l_Some).
    destruct (fs_write _ _ _) as [[] e1]; [| by eauto 7].
    destruct (fs_open _ _) as [[] e2]; [| by eauto 7].
    destruct (encode_document _) as [doc | e];
      [| destruct (fs_write _ _ _) as [[] e3]; by eauto 7].
    destruct (fs_write _ _ _) as [[] e3]; [| by eauto 7].
    destruct (exporter_verbose self); [| by eauto 7].
    destruct (fs_stat _ _); [| by eauto 7].
    destruct (fs_stat _ _); by eauto 7.
Qed.

(** ** The JSON writer *)












(** ** The search loop *)




Section search_loop.
Variable self : JobCollector.
Variable platforms : list string.
Variables results_per_term days_old delay_between_searches : Z.
Variable job_type : option string.
Variable is_remote : option bool.
Variable total_searches : nat.

Let params := task_params self platforms results_per_term days_old job_type is_remote.
Let step := search_step self platforms results_per_term days_old
              delay_between_searches job_type is_remote total_searches.



End search_loop.


(** ** After the loop *)




(** ** The whole run *)



(** ** Reading the trace of a run *)













Section run.
Variable self : JobCollector.
Variable search_terms : list string.
Variable locations : list location_config.
Variable platforms : list string.
Variables results_per_term days_old : Z.
Variable output_filename : string.
Variable delay_between_searches : Z.
Variable job_type : option string.
Variable is_remote : option bool.
Variable w : world.

Let params := task_params self platforms results_per_term days_old job_type is_remote.





End run.

(** * More of the code *)

(** ** [search] *)

(** X1. [search] never raises and never returns an empty table: it makes
    one call to the provider, leaves the memory alone, and returns either
    [None] or the table the provider returned, which then has a row; when
    the provider raises it returns [None]. *)
Theorem search_catches_and_never_returns_empty (self : JobScraper)
    (search_term location : string) (platforms : list string) (country : string)
    (results_wanted days_old : Z) (job_type : option string)
    (is_remote : option bool) (w : world) :
  let params :=
    _build_params self search_term location
      (if bool_decide (platforms = []) then DEFAULT_PLATFORMS else platforms)
      country results_wanted days_old job_type is_remote in
  let answer := (scrape_jobs params (env w)).1 in
  ∃ found,
    search self search_term location platforms country results_wanted days_old
      job_type is_remote w
    = (Ok found,
       World (scrape_jobs params (env w)).2 (heap w)
         (trace w ++ [EvScrape params answer]))
    ∧ match found with
      | Some df => answer = Ok (Some df) ∧ 0 < frame_len df
      | None => True
      end
    ∧ match answer with
      | Raise _ | Ok None => found = None
      | Ok (Some df) => frame_len df = 0 → found = None
      end.
Proof.
  intros params answer. subst answer.
  unfold search, try_except, call_scrape_jobs, _print_results, _print_statistics.
  run_monad. fold params.
  destruct (scrape_jobs params (env w)) as [[[df |] | err] e]; cbn [fst snd].
  - destruct (bool_decide (scraper_verbose self = 0%Z)); cbn [env heap trace].
    + destruct (bool_decide (0 < frame_len df)) eqn:Hlen.
      * exists (Some df). apply bool_decide_eq_true_1 in Hlen.
        split; [done |]. split; [done | lia].
      * by exists None.
    + destruct (bool_decide (0 < frame_len df)) eqn:Hlen; cbn [andb].
      * apply bool_decide_eq_true_1 in Hlen.
        destruct (bool_decide (1 ≤ scraper_verbose self)%Z).
        -- destruct (statistics_error df) as [err |]; cbn [env heap trace].
           ++ exists None. split; [done |]. split; [done | lia].
           ++ exists (Some df). split; [done |]. split; [done | lia].
        -- cbn [env heap trace].
           exists (Some df). split; [done |]. split; [done | lia].
      * by exists None.
  - exists None. by destruct (bool_decide (scraper_verbose self = 0%Z)).
  - by exists None.
Qed.

(** ** Consolidation *)

Lemma length_bind_rows (f : frame → list (list value)) (dfs : list frame) :
  (∀ df, length (f df) = frame_len df) →
  length (dfs ≫= f) = sum_list (frame_len <$> dfs).
Proof.
  intros Hf. induction dfs as [|df dfs IH]; [done |].
  change ((df :: dfs) ≫= f) with (f df ++ (dfs ≫= f)).
  by rewrite length_app, IH, Hf.
Qed.

Lemma length_pd_concat_rows (dfs : list frame) :
  frame_len (pd_concat dfs) = sum_list (frame_len <$> dfs).
Proof.
  unfold frame_len at 1, pd_concat. cbn [rows]. rewrite length_fmap.
  unfold concat_rows. destruct (same_columns dfs);
    apply length_bind_rows; intros df; unfold reindex; by rewrite length_fmap.
Qed.

Lemma keep_unseen_first_row (key_of : list value → list key)
    (l : list (list value)) :
  l ≠ [] → keep_unseen key_of [] l ≠ [].
Proof.
  destruct l as [|row l]; [done |]. intros _. cbn.
  rewrite decide_False by apply not_elem_of_nil. done.
Qed.

Lemma drop_duplicates_first_row (subset : option (list string)) (df : frame) :
  rows df ≠ [] → rows (drop_duplicates subset df) ≠ [].
Proof.
  intros Hne. unfold drop_duplicates. destruct (frame_empty df); [done |].
  by apply keep_unseen_first_row.
Qed.

(** X2. The counts of the consolidation add up: the consolidated table has
    the rows of all batches, the unique rows and the duplicates removed
    make the total, and deduplication leaves a row whenever there was
    one. *)
Theorem consolidation_counts_add_up (all_jobs : list frame) :
  let consolidated := pd_concat all_jobs in
  let unique_jobs := unique_jobs_of consolidated in
  let duplicates_removed := frame_len consolidated - frame_len unique_jobs in
  frame_len consolidated = sum_list (frame_len <$> all_jobs)
  ∧ frame_len unique_jobs + duplicates_removed = frame_len consolidated
  ∧ (frame_len unique_jobs = 0 ↔ frame_len consolidated = 0).
Proof.
  intros consolidated unique_jobs duplicates_removed.
  assert (Hle : (frame_len unique_jobs ≤ frame_len consolidated)%nat).
  { apply sublist_length, unique_jobs_sublist. }
  split; [apply length_pd_concat_rows |]. split; [unfold duplicates_removed; lia |].
  split; [| lia]. intros Hzero.
  destruct (rows consolidated) as [|row l] eqn:Hrows;
    [unfold frame_len; by rewrite Hrows |].
  exfalso. unfold unique_jobs, unique_jobs_of, frame_len in Hzero.
  destruct (has_column "id" consolidated);
    apply nil_length_inv in Hzero;
    by apply drop_duplicates_first_row in Hzero; [| rewrite Hrows].
Qed.

Lemma keep_unseen_idempotent (key_of : list value → list key)
    (l : list (list value)) :
  ∀ seen,
    keep_unseen key_of seen (keep_unseen key_of seen l)
    = keep_unseen key_of seen l.
Proof.
  induction l as [|row l IH]; intros seen; [done |]. cbn [keep_unseen].
  destruct (decide (key_of row ∈ seen)) as [Hin | Hin]; [apply IH |].
  cbn [keep_unseen]. rewrite decide_False by done. f_equal. apply IH.
Qed.

(** X3. Deduplication is idempotent: on a table that already went through
    it, [drop_duplicates] by 'id' or by the whole row removes nothing. *)
Theorem deduplication_is_idempotent (consolidated : frame) :
  unique_jobs_of (unique_jobs_of consolidated) = unique_jobs_of consolidated.
Proof.
  assert (Hdrop : ∀ subset,
            drop_duplicates subset (drop_duplicates subset consolidated)
            = drop_duplicates subset consolidated).
  { intros subset. destruct (frame_empty consolidated) eqn:Hempty.
    - assert (Hsame : drop_duplicates subset consolidated = consolidated)
        by (unfold drop_duplicates; by rewrite Hempty).
      by rewrite !Hsame.
    - assert (Hkept : drop_duplicates subset consolidated
                      = Frame (columns consolidated)
                          (keep_unseen (row_key consolidated subset) []
                             (rows consolidated)))
        by (unfold drop_duplicates; by rewrite Hempty).
      rewrite Hkept. unfold frame_empty in Hempty.
      apply orb_false_iff in Hempty as [Hc Hr].
      apply bool_decide_eq_false_1 in Hc, Hr.
      unfold drop_duplicates, frame_empty. cbn [columns rows].
      rewrite (bool_decide_false (columns consolidated = [])) by done.
      rewrite (bool_decide_false (keep_unseen _ _ _ = []))
        by (by apply keep_unseen_first_row).
      cbn [orb]. f_equal. apply keep_unseen_idempotent. }
  unfold unique_jobs_of.
  destruct (has_column "id" consolidated) eqn:Hid.
  - replace (has_column "id" (drop_duplicates (Some ["id"]) consolidated))
      with true
      by (unfold has_column in *; by rewrite drop_duplicates_columns).
    apply Hdrop.
  - replace (has_column "id" (drop_duplicates None consolidated))
      with false
      by (unfold has_column in *; by rewrite drop_duplicates_columns).
    apply Hdrop.
Qed.

(** ** Tagging a batch *)

Lemma index_of_app_r (c : string) (cols : list string) :
  index_of c cols = None → index_of c (cols ++ [c]) = Some (length cols).
Proof.
  induction cols as [|c' cols IH]; cbn.
  - by rewrite decide_True.
  - destruct (decide (c = c')); [done |].
    destruct (index_of c cols); [done |]. intros _. by rewrite IH.
Qed.

Lemma index_of_app_ne (c k : string) (cols : list string) :
  k ≠ c → index_of k (cols ++ [c]) = index_of k cols.
Proof.
  intros Hne. induction cols as [|c' cols IH]; cbn.
  - by rewrite decide_False.
  - destruct (decide (k = c')); [done |]. by rewrite IH.
Qed.

Lemma cell_fit (n i : nat) (row : list value) :
  i < n → cell (fit n row) i = cell row i.
Proof.
  intros Hi. unfold cell at 1, fit.
  by rewrite list_lookup_fmap, lookup_seq_lt.
Qed.

(** [df[c] = v] sets column [c] of every row to [v] and leaves the other
    columns of every row as they are. *)
Lemma set_column_rows (c : string) (v : value) (df : frame) :
  Forall2 (λ row row',
             cell_of (set_column c v df) row' c = v
             ∧ ∀ k, k ≠ c → cell_of (set_column c v df) row' k = cell_of df row k)
    (rows df) (rows (set_column c v df)).
Proof.
  unfold set_column.
  destruct (index_of c (columns df)) as [j |] eqn:Hc; cbn [rows];
    apply Forall2_fmap_r, Forall_Forall2_diag, Forall_forall; intros row _.
  - pose proof (index_of_Some _ _ _ Hc) as Hj.
    assert (Hlt : j < length (columns df)) by (by eapply lookup_lt_Some).
    unfold cell_of. cbn [columns]. rewrite Hc. split.
    + unfold cell. by rewrite list_lookup_insert_eq by (by rewrite length_fit).
    + intros k Hk. destruct (index_of k (columns df)) as [i |] eqn:Hi; [| done].
      pose proof (index_of_Some _ _ _ Hi) as Hi'.
      assert (i ≠ j) by congruence.
      unfold cell at 1. rewrite list_lookup_insert_ne by done.
      apply cell_fit. by eapply lookup_lt_Some.
  - unfold cell_of. cbn [columns]. rewrite (index_of_app_r _ _ Hc). split.
    + unfold cell.
      rewrite lookup_app_r by (by rewrite length_fit).
      by rewrite length_fit, Nat.sub_diag.
    + intros k Hk. rewrite (index_of_app_ne c k) by done.
      destruct (index_of k (columns df)) as [i |] eqn:Hi; [| done].
      pose proof (index_of_Some _ _ _ Hi) as Hi'.
      assert (Hlt : i < length (columns df)) by (by eapply lookup_lt_Some).
      unfold cell at 1. rewrite lookup_app_l by (by rewrite length_fit).
      by apply cell_fit.
Qed.

(** X4. Tagging a batch sets 'search_term', 'search_location' and
    'search_country' of every record to the term, the location and the
    country of the search, whatever the provider had put there, keeps the
    number of records, and changes no other field. *)
Theorem tag_search_sets_the_three_fields (term location country : string)
    (jobs : frame) :
  Forall2 (λ row row',
             let tagged := tag_search term location country jobs in
             cell_of tagged row' "search_term" = VStr term
             ∧ cell_of tagged row' "search_location" = VStr location
             ∧ cell_of tagged row' "search_country" = VStr country
             ∧ ∀ k, k ∉ ["search_term"; "search_location"; "search_country"] →
                    cell_of tagged row' k = cell_of jobs row k)
    (rows jobs) (rows (tag_search term location country jobs)).
Proof.
  unfold tag_search.
  set (j1 := set_column "search_term" (VStr term) jobs).
  set (j2 := set_column "search_location" (VStr location) j1).
  pose proof (set_column_rows "search_term" (VStr term) jobs) as H1.
  pose proof (set_column_rows "search_location" (VStr location) j1) as H2.
  pose proof (set_column_rows "search_country" (VStr country) j2) as H3.
  fold j1 in H1. fold j2 in H2.
  set (j3 := set_column "search_country" (VStr country) j2) in *.
  assert (H23 : Forall2 (λ r1 r3,
                    cell_of j3 r3 "search_location" = VStr location
                    ∧ cell_of j3 r3 "search_country" = VStr country
                    ∧ ∀ k, k ≠ "search_location" → k ≠ "search_country" →
                           cell_of j3 r3 k = cell_of j1 r1 k)
                  (rows j1) (rows j3)).
  { eapply Forall2_trans; [| exact H2 | exact H3].
    intros r1 r2 r3 [Hl2 Ho2] [Hc3 Ho3].
    split; [by rewrite Ho3 |]. split; [done |].
    intros k Hk1 Hk2. by rewrite Ho3, Ho2. }
  eapply Forall2_trans; [| exact H1 | exact H23].
  intros r0 r1 r3 [Ht1 Ho1] (Hl & Hc & Ho). cbv zeta.
  split; [by rewrite Ho |]. split; [done |]. split; [done |].
  intros k Hk.
  rewrite Ho, Ho1; [done | | |]; intros ->; apply Hk;
    repeat first [ apply list_elem_of_here | apply list_elem_of_further ].
Qed.

(** ** Cleaned records *)

Lemma spec_normalize_valid (v : value) : spec_invalid (spec_normalize v) = false.
Proof. unfold spec_normalize. by destruct (spec_invalid v) eqn:Hv. Qed.

Lemma map_values_keys (f : value → value) (d : dict) :
  dict_keys (map_values f d) = dict_keys d.
Proof.
  unfold dict_keys, map_values. rewrite <- list_fmap_compose.
  by apply list_fmap_ext.
Qed.

Lemma map_values_elem (f : value → value) (d : dict) (k : string) (v : value) :
  (k, v) ∈ map_values f d → ∃ v0, (k, v0) ∈ d ∧ v = f v0.
Proof.
  unfold map_values. intros ([k0 v0] & [= -> ->] & Hin)%list_elem_of_fmap.
  by exists v0.
Qed.

(** X5. A cleaned record holds no invalid value: no not-a-number float, no
    blank string and no string that is "nan" up to case is left under any
    key; and cleaning a cleaned record changes nothing. *)
Theorem clean_record_leaves_no_invalid_value (record : dict) :
  NoDup (dict_keys record) →
  (∀ key v, (key, v) ∈ _clean_record record → spec_invalid v = false)
  ∧ _clean_record (_clean_record record) = _clean_record record.
Proof.
  intros Hnd. rewrite (_clean_record_map record Hnd).
  fold (map_values spec_normalize record). split.
  - intros key v (v0 & _ & ->)%map_values_elem. apply spec_normalize_valid.
  - rewrite _clean_record_map by (by rewrite map_values_keys).
    unfold map_values. rewrite <- list_fmap_compose.
    apply list_fmap_ext. intros i [k v] _. cbn. f_equal.
    unfold spec_normalize at 1. by rewrite spec_normalize_valid.
Qed.

Lemma spec_sweep_valid (v : value) : spec_invalid v = false → spec_sweep v = v.
Proof.
  intros Hv. unfold spec_sweep, spec_normalize. rewrite Hv.
  by destruct (blank_string v).
Qed.

(** X6. On records that the cleaner cleaned, the sweep of the exporter
    finds nothing to do: [_clean_for_json] leaves the world as it is. *)
Theorem export_sweep_is_no_op_on_cleaned_records (l : nat) (rs : list dict)
    (w : world) :
  heap w !! l = Some (ORecords (_clean_record <$> rs)) →
  Forall (λ record, NoDup (dict_keys record)) rs →
  _clean_for_json l w = (Ok tt, w).
Proof.
  intros Hl Hnd. rewrite (_clean_for_json_run l _ w Hl).
  replace (sweep_record <$> (_clean_record <$> rs)) with (_clean_record <$> rs).
  { rewrite list_insert_id by done. by destruct w. }
  rewrite <- (list_fmap_compose _clean_record sweep_record).
  apply Forall_fmap_ext_1. eapply Forall_impl; [exact Hnd |].
  intros record Hrec. cbn.
  rewrite (_clean_record_map record Hrec). fold (map_values spec_normalize record).
  rewrite sweep_record_map by (by rewrite map_values_keys).
  unfold map_values. rewrite <- list_fmap_compose. symmetry.
  apply list_fmap_ext. intros i [k v] _. cbn. f_equal.
  rewrite json_sweep_spec. apply spec_sweep_valid, spec_normalize_valid.
Qed.

(** ** The JSON document *)

Lemma encode_value_finite (v : value) (x : spec_float) :
  encode_value v = Ok (JFloat x) → finite x = true ∧ v = VFloat x.
Proof.
  destruct v as [| b | z | y | s | iso | | ty a | items | items | items]; try done.
  destruct y; cbn; by intros [= <-].
Qed.

Lemma encode_value_null (v : value) :
  encode_value v = Ok JNull → v = VNone ∨ v = VNA.
Proof.
  destruct v as [| b | z | y | s | iso | | ty a | items | items | items]; try done; try by auto.
  by destruct y.
Qed.

Lemma encode_record_entry (d : dict) (entry : list (string * json)) :
  encode_record d = Ok entry →
  Forall2 (λ kv kj, kv.1 = kj.1 ∧ encode_value kv.2 = Ok kj.2) d entry.
Proof.
  revert entry. induction d as [|[k v] d IH]; intros entry; cbn [encode_record].
  - intros [= <-]. constructor.
  - destruct (encode_value v) as [j | e] eqn:Hv; [| done].
    destruct (encode_record d) as [js | e]; [| done]. intros [= <-].
    constructor; [done | by apply IH].
Qed.

Lemma encode_document_entries (rs : list dict) (doc : document) :
  encode_document rs = Ok doc →
  Forall2 (λ d entry, encode_record d = Ok entry) rs doc.
Proof.
  revert doc. induction rs as [|d rs IH]; intros doc; cbn [encode_document].
  - intros [= <-]. constructor.
  - destruct (encode_record d) as [entry | e] eqn:Hd; [| done].
    destruct (encode_document rs) as [doc' | e]; [| done]. intros [= <-].
    constructor; [done | by apply IH].
Qed.

(** X7. A JSON document that is produced has one entry per record, with
    the keys of the record in their order; it holds no float that is not
    finite; a date is written as its ISO text; [null] is written for
    [None] and for a missing-value marker only; an array is a list or a
    tuple and an object is a dict. *)
Theorem json_document_is_faithful (rs : list dict) (doc : document) :
  encode_document rs = Ok doc →
  Forall2 (λ record entry,
             entry.*1 = dict_keys record
             ∧ Forall2 (λ kv kj,
                          match kj.2 with
                          | JFloat x => finite x = true ∧ kv.2 = VFloat x
                          | JNull => kv.2 = VNone ∨ kv.2 = VNA
                          | JBool b => kv.2 = VBool b
                          | JInt z => kv.2 = VInt z
                          | JStr s => kv.2 = VStr s ∨ kv.2 = VDate s
                          | JArr items =>
                              kv.2 = VList items ∨ kv.2 = VTuple items
                          | JObj items => kv.2 = VDict items
                          end)
                 record entry)
    rs doc.
Proof.
  intros Hdoc. apply encode_document_entries in Hdoc.
  eapply Forall2_impl; [exact Hdoc |]. intros record entry Hrec. cbn beta.
  apply encode_record_entry in Hrec. split.
  - unfold dict_keys. symmetry. apply list_eq_Forall2, Forall2_fmap.
    eapply Forall2_impl; [exact Hrec |]. by intros [k v] [k' j] [Hk _].
  - eapply Forall2_impl; [exact Hrec |]. intros [k v] [k' j] [_ Hv]. cbn in *.
    destruct j as [| b | z | x | s | l | l].
    + by apply encode_value_null.
    + destruct v as [| b' | z' | y | s' | iso | | ty a | items | items | items]; try done;
        [by injection Hv as -> | by destruct y].
    + destruct v as [| b' | z' | y | s' | iso | | ty a | items | items | items]; try done;
        [by injection Hv as -> | by destruct y].
    + by apply encode_value_finite.
    + destruct v as [| b' | z' | y | s' | iso | | ty a | items | items | items]; try done;
        [by destruct y | injection Hv as ->; by left
        | injection Hv as ->; by right].
    + destruct v as [| b' | z' | y | s' | iso | | ty a | items | items | items]; try done;
        [by destruct y | injection Hv as ->; by left
        | injection Hv as ->; by right].
    + destruct v as [| b' | z' | y | s' | iso | | ty a | items | items | items]; try done;
        [by destruct y | by injection Hv as ->].
Qed.

(** ** What a successful export wrote *)

Lemma to_dict_swept (df : frame) :
  sweep_record <$> to_dict df = map_values spec_sweep <$> to_dict df.
Proof.
  apply Forall_fmap_ext_1, Forall_forall. intros record Hrec.
  rewrite sweep_record_map by (by eapply to_dict_NoDup).
  apply list_fmap_ext. intros i [k v] _. cbn. by rewrite json_sweep_spec.
Qed.

(** X8. [export] answers [True] only when the table is not empty and both
    files were written, the CSV file first and the JSON file next, under
    names that differ in the extension only and carry one timestamp; the
    CSV file holds the table as it was given and the JSON file the encoded
    records of the table after the sweep.  With [verbose] the two sizes were
    read as well. *)
Theorem export_true_means_both_files_written (self : JobDataExporter) (l : nat)
    (df : frame) (base : string) (w w' : world) :
  heap w !! l = Some (ODataFrame df) →
  export self (Some l) base w = (Ok true, w') →
  let timestamp := strftime_now (env w) in
  let csv_file := output_dir self +:+ "/" +:+ base +:+ "_" +:+ timestamp +:+ ".csv" in
  let json_file := output_dir self +:+ "/" +:+ base +:+ "_" +:+ timestamp +:+ ".json" in
  frame_empty df = false
  ∧ ∃ doc,
      encode_document (map_values spec_sweep <$> to_dict df) = Ok doc
      ∧ trace w'
        = trace w
            ++ [EvWrite csv_file (CsvBody df) true; EvOpen json_file true;
                EvWrite json_file (JsonBody doc) true]
            ++ (if exporter_verbose self
                then [EvStat csv_file true; EvStat json_file true] else []).
Proof.
  intros Hl Hrun. cbv zeta.
  destruct (frame_empty df) eqn:Hempty.
  { exfalso. revert Hrun. unfold export, frame_at. run_monad.
    rewrite Hl. cbn. by rewrite Hempty. }
  split; [done |]. revert Hrun.
  rewrite (export_run self l df base w Hl Hempty). cbv zeta.
  rewrite to_dict_swept.
  destruct (fs_write _ _ _) as [[] e1]; [| done].
  destruct (fs_open _ _) as [[] e2]; [| done].
  destruct (encode_document _) as [doc | e];
    [| by destruct (fs_write _ _ _) as [ok3 e3]].
  destruct (fs_write _ _ _) as [[] e3]; [| done].
  destruct (exporter_verbose self).
  - destruct (fs_stat _ _); [| done]. destruct (fs_stat _ _); [| done].
    intros [= <-]. exists doc. split; [done |]. cbn [trace].
    by rewrite <- !app_assoc.
  - intros [= <-]. exists doc. split; [done |]. cbn [trace].
    by rewrite <- !app_assoc, app_nil_r.
Qed.

(** ** What the cleaner keeps *)

Lemma select_columns_NoDup (names : list string) (df : frame) :
  NoDup (columns df) → (∀ c, c ∈ names → c ∈ columns df) →
  select_columns names df
  = Frame names ((λ row, cell_of df row <$> names) <$> rows df).
Proof.
  intros Hnd Hin. unfold select_columns.
  set (sel := names ≫= _).
  assert (Hsel : sel.*1 = names
                 ∧ ∀ row, cell row <$> sel.*2 = cell_of df row <$> names).
  { unfold sel. clear sel. induction names as [|c names IH]; [done |].
    change ((c :: names) ≫= ?f) with (f c ++ (names ≫= f)).
    destruct (index_of_is_Some c (columns df)) as [j Hj];
      [apply Hin, list_elem_of_here |].
    rewrite (positions_of_NoDup c (columns df) j Hnd Hj).
    destruct IH as [IH1 IH2];
      [intros c' Hc'; by apply Hin, list_elem_of_further |].
    split.
    - rewrite fmap_app, IH1. done.
    - intros row. rewrite fmap_app, fmap_app, IH2. cbn.
      unfold cell_of at 2. by rewrite Hj. }
  destruct Hsel as [-> Hrows]. f_equal.
  apply list_fmap_ext. intros i row _. apply Hrows.
Qed.

Lemma dict_set_new (k : string) (v : value) (d : dict) :
  k ∉ dict_keys d → dict_set k v d = d ++ [(k, v)].
Proof.
  unfold dict_keys. induction d as [|[k' v'] d IH]; [done |].
  rewrite fmap_cons. intros [Hne Hk]%not_elem_of_cons. cbn.
  rewrite decide_False by done. by rewrite IH.
Qed.

(** [dict(items)] of items with distinct keys holds the items in order. *)
Lemma dict_of_items_NoDup (items : list (string * value)) :
  NoDup items.*1 → dict_of_items items = items.
Proof.
  unfold dict_of_items.
  enough (H : ∀ d, NoDup (d.*1 ++ items.*1) →
                   foldl (λ d kv, dict_set kv.1 kv.2 d) d items = d ++ items)
    by (intros Hnd; by apply (H [])).
  induction items as [|[k v] items IH]; intros d Hnd; cbn [foldl].
  - by rewrite app_nil_r.
  - assert (Hk : k ∉ d.*1).
    { apply NoDup_app in Hnd as (_ & Hdisj & _).
      intros Hin. apply (Hdisj k Hin). rewrite fmap_cons. apply list_elem_of_here. }
    cbn [fst snd]. rewrite dict_set_new by done.
    rewrite IH; [by rewrite <- app_assoc |].
    rewrite fmap_app, <- app_assoc. by rewrite fmap_cons in Hnd.
Qed.

Lemma dict_get_zip (cols : list string) :
  ∀ (vals : list value) (i : nat) (c : string),
    NoDup cols → cols !! i = Some c →
    dict_get c (zip cols vals) = vals !! i.
Proof.
  induction cols as [|c0 cols IH]; intros vals i c Hnd Hc; [done |].
  apply NoDup_cons in Hnd as [Hc0 Hnd].
  destruct vals as [|v0 vals]; [done |]. cbn.
  destruct i as [|i]; cbn in Hc.
  - injection Hc as ->. by rewrite decide_True.
  - rewrite decide_False; [exact (IH vals i c Hnd Hc) |].
    intros ->. apply Hc0. by eapply list_elem_of_lookup_2.
Qed.

Lemma row_of_record (cols : list string) (vals : list value) :
  NoDup cols → length vals = length cols →
  (λ c, default nan (dict_get c (zip cols vals))) <$> cols = vals.
Proof.
  intros Hnd Hlen. apply list_eq. intros i. rewrite list_lookup_fmap.
  destruct (cols !! i) as [c |] eqn:Hc; cbn.
  - rewrite (dict_get_zip cols vals i c Hnd Hc).
    destruct (lookup_lt_is_Some_2 vals i) as [v Hv];
      [rewrite Hlen; by eapply lookup_lt_Some |].
    by rewrite Hv.
  - symmetry. apply lookup_ge_None. rewrite Hlen. by apply lookup_ge_None.
Qed.

Lemma map_values_zip (f : value → value) (cols : list string) (vals : list value) :
  map_values f (zip cols vals) = zip cols (f <$> vals).
Proof.
  revert vals. induction cols as [|c cols IH]; intros [|v vals]; try done.
  unfold map_values in *. cbn. by rewrite <- IH.
Qed.

(** The records [_remove_invalid_values] makes of a table with distinct
    column names and full rows: the cells of a row under the column names,
    the missing ones filled, every one through the record rule. *)
Lemma cleaned_records (jobs : frame) :
  NoDup (columns jobs) →
  Forall (λ row, length row = length (columns jobs)) (rows jobs) →
  _clean_record <$> to_dict (fill_missing jobs)
  = (λ row, zip (columns jobs)
              (spec_normalize
                 <$> imap (λ j v, if isna v then na_marker jobs j else v) row))
      <$> rows jobs.
Proof.
  intros Hnd Hfull. unfold to_dict, fill_missing. cbn [columns rows].
  rewrite <- !list_fmap_compose.
  apply Forall_fmap_ext_1. eapply Forall_impl; [exact Hfull |].
  intros row Hrow. unfold compose. cbn beta.
  assert (Hfit : ∀ r : list value,
            length r = length (columns jobs) → fit (length (columns jobs)) r = r)
    by (intros r <-; apply fit_id).
  rewrite (Hfit row) by done.
  set (row' := imap _ row).
  assert (Hlen : length row' = length (columns jobs)).
  { unfold row'. by rewrite length_imap. }
  rewrite (Hfit row') by done.
  rewrite dict_of_items_NoDup by (by rewrite fst_zip by lia).
  rewrite _clean_record_map by (unfold dict_keys; by rewrite fst_zip by lia).
  fold (map_values spec_normalize (zip (columns jobs) row')).
  by rewrite map_values_zip.
Qed.

(** X9. On a table with distinct column names, the records of which the
    cleaner makes the table it returns are those of exactly the rows that
    pass the description gate, in their order (all rows when there is no
    'description' column).  Each record has the fields of the returned
    table in their order; it holds no invalid value; and where the input
    is not missing it holds the value of the input as the record rule
    leaves it, [None] if it is invalid and unchanged otherwise: no valid
    value is changed.  The returned table is [pd.DataFrame] of these
    records, which stores the cells by the dtype of their column, and has
    one row per record. *)
Theorem clean_keeps_described_rows_and_valid_cells (jobs df : frame) :
  NoDup (columns jobs) →
  clean (Some jobs) = Some df →
  let kept :=
    List.filter (λ row, if has_column "description" jobs
                        then has_description jobs row else true)
      (rows jobs) in
  ∃ records,
    df = DataFrame_of_records records
    ∧ frame_len df = length kept
    ∧ Forall2 (λ row record,
                 Forall2 (λ c (item : string * value),
                            item.1 = c
                            ∧ spec_invalid item.2 = false
                            ∧ (isna (cell_of jobs row c) = false →
                               item.2 = spec_normalize (cell_of jobs row c)))
                   (columns df) record)
        kept records.
Proof.
  intros Hnd. unfold clean. destruct (frame_empty jobs); [done |].
  set (gate := λ row, if has_column "description" jobs
                      then has_description jobs row else true).
  assert (Hdrop : drop_without_description jobs
                  = Frame (columns jobs) (List.filter gate (rows jobs))).
  { unfold drop_without_description, gate.
    destruct (has_column "description" jobs); [done |].
    rewrite forallb_filter_id by (by apply forallb_forall). by destruct jobs. }
  rewrite Hdrop. set (jobs1 := Frame _ _).
  set (available := List.filter (λ col, has_column col jobs) ESSENTIAL_COLUMNS).
  assert (Hfilter : _filter_columns jobs1
                    = Frame available
                        ((λ row, cell_of jobs row <$> available)
                           <$> List.filter gate (rows jobs))).
  { unfold _filter_columns. change (λ col, has_column col jobs1)
      with (λ col, has_column col jobs). fold available.
    rewrite select_columns_NoDup; [done | done |].
    intros c [_ Hc]%list_elem_of_In%filter_In. by apply bool_decide_eq_true_1 in Hc. }
  rewrite Hfilter. set (jobs2 := Frame available _).
  destruct (rows jobs2) as [|r rs] eqn:Hrows.
  { rewrite _remove_invalid_values_no_rows by done. done. }
  assert (Hne : rows jobs2 ≠ []) by (by rewrite Hrows).
  assert (Havail : NoDup available) by apply available_columns_NoDup.
  pose proof (_remove_invalid_values_columns jobs2 Hne) as Hcols.
  rewrite (merge_names_NoDup_app [] (columns jobs2)) in Hcols by done.
  cbn [app columns] in Hcols.
  destruct (frame_empty _); [done |]. intros [= <-]. cbv zeta.
  rewrite Hcols. clear Hrows.
  exists (_clean_record <$> to_dict (fill_missing jobs2)).
  split; [done |].
  rewrite cleaned_records; [| done |].
  2:{ cbn [columns rows]. apply Forall_fmap, Forall_forall. intros row _.
      unfold compose. cbn beta. by rewrite length_fmap. }
  split.
  { unfold frame_len, _remove_invalid_values, DataFrame_of_records.
    cbn [rows columns]. rewrite !length_fmap. unfold to_dict.
    rewrite length_fmap. unfold fill_missing. cbn [rows].
    rewrite length_fmap. unfold jobs2. cbn [rows]. by rewrite length_fmap. }
  unfold jobs2. cbn [columns rows]. rewrite <- list_fmap_compose.
  apply Forall2_fmap_r, Forall_Forall2_diag, Forall_forall. intros row _.
  unfold compose. cbn beta. fold jobs2.
  apply Forall2_same_length_lookup_2.
  { rewrite length_zip_with, length_fmap, length_imap, length_fmap. lia. }
  intros i c [k v] Hc Hkv.
  apply lookup_zip_with_Some in Hkv as (x & y & [= <- <-] & Hx & Hy).
  rewrite Hc in Hx. injection Hx as <-.
  rewrite list_lookup_fmap, list_lookup_imap, list_lookup_fmap, Hc in Hy.
  cbn in Hy. injection Hy as <-. cbn [fst snd].
  split; [done |]. split; [apply spec_normalize_valid |].
  by intros ->.
Qed.

(** ** The local post-filter *)

(** X10. [_filter_by_search_term] never loses all the data: it returns the
    table itself when the term is empty or blank and when no row has the
    term in its title or description; otherwise it returns, with the same
    columns, exactly the rows that have the term there, up to case, in
    their order.  A table with rows is never turned into one without. *)
Theorem filter_by_search_term_never_empties (self : JobScraper) (jobs : frame)
    (search_term : string) :
  let normalized := lower (strip search_term) in
  let matching := List.filter (row_matches normalized jobs) (rows jobs) in
  _filter_by_search_term self jobs search_term
  = (if bool_decide (search_term = "") || blank search_term
        || bool_decide (matching = [])
     then jobs else Frame (columns jobs) matching)
  ∧ columns (_filter_by_search_term self jobs search_term) = columns jobs
  ∧ sublist (rows (_filter_by_search_term self jobs search_term)) (rows jobs)
  ∧ (frame_len (_filter_by_search_term self jobs search_term) = 0
     ↔ frame_len jobs = 0).
Proof.
  intros normalized matching.
  assert (Hblank : bool_decide (normalized = "") = blank search_term).
  { unfold normalized. destruct (blank search_term) eqn:Hb.
    - apply bool_decide_eq_true_2. apply strip_empty_iff in Hb. by rewrite Hb.
    - apply bool_decide_eq_false_2. intros Hl.
      assert (strip search_term = "") as Hs
        by (by destruct (strip search_term)).
      apply strip_empty_iff in Hs. congruence. }
  assert (Hrun : _filter_by_search_term self jobs search_term
                 = if bool_decide (search_term = "") || blank search_term
                      || bool_decide (matching = [])
                   then jobs else Frame (columns jobs) matching).
  { unfold _filter_by_search_term. fold normalized. rewrite Hblank.
    destruct (bool_decide (search_term = "")); [done |].
    destruct (blank search_term); [done |]. cbn [orb].
    fold matching. unfold frame_len. cbn [rows].
    destruct matching as [|row l]; [done |].
    rewrite bool_decide_true by (cbn; lia). done. }
  split; [exact Hrun |]. rewrite Hrun.
  destruct (bool_decide (search_term = "") || blank search_term
            || bool_decide (matching = [])) eqn:Hcase.
  - done.
  - apply orb_false_iff in Hcase as [_ Hm]. apply bool_decide_eq_false_1 in Hm.
    split; [done |]. split; [apply List_filter_sublist |].
    unfold frame_len. cbn [rows]. split.
    + intros Hz%nil_length_inv. done.
    + intros Hz%nil_length_inv. unfold matching in Hm. by rewrite Hz in Hm.
Qed.

(** ** The configuration *)

Lemma cfg_get_set (k k' : string) (v : cfg) (d : cfg_dict) :
  cfg_get k (cfg_set k' v d) = if decide (k = k') then Some v else cfg_get k d.
Proof.
  induction d as [|[k0 v0] d IH]; cbn.
  - by destruct (decide (k = k')).
  - destruct (decide (k' = k0)) as [->|Hne]; cbn.
    + destruct (decide (k = k0)); done.
    + destruct (decide (k = k0)) as [->|]; [| done].
      by destruct (decide (k0 = k')) as [->|].
Qed.

Lemma cfg_get_pop_ne (k k' : string) (d : cfg_dict) :
  k ≠ k' → cfg_get k (cfg_pop k' d) = cfg_get k d.
Proof.
  intros Hne. induction d as [|[k0 v0] d IH]; cbn; [done |].
  destruct (decide (k' = k0)) as [->|]; cbn.
  - by destruct (decide (k = k0)).
  - by destruct (decide (k = k0)).
Qed.

Lemma cfg_get_None (k : string) (d : cfg_dict) :
  k ∉ d.*1 → cfg_get k d = None.
Proof.
  induction d as [|[k0 v0] d IH]; cbn; [done |].
  rewrite not_elem_of_cons. intros [Hne Hnot].
  destruct (decide (k = k0)); [done |]. by apply IH.
Qed.

Lemma cfg_set_keeps_keys (k k' : string) (v : cfg) (d : cfg_dict) :
  is_Some (cfg_get k d) → is_Some (cfg_get k (cfg_set k' v d)).
Proof. rewrite cfg_get_set. by destruct (decide (k = k')). Qed.

Lemma _merge_configs_unfold (items : list (string * cfg)) (d : cfg_dict) :
  _merge_configs (CDict items) d
  = match merge_items items d with
    | Ok merged => convert_single_location merged
    | Raise e => Raise e
    end.
Proof. reflexivity. Qed.

Lemma merge_items_cons (key : string) (value : cfg) (items : list (string * cfg))
    (merged : cfg_dict) :
  merge_items ((key, value) :: items) merged
  = match value, cfg_get key merged with
    | CDict _, Some (CDict d) =>
        match _merge_configs value d with
        | Ok m => merge_items items (cfg_set key (CDict m) merged)
        | Raise e => Raise e
        end
    | _, _ => merge_items items (cfg_set key value merged)
    end.
Proof. reflexivity. Qed.

(** One step of the loop sets the key, to the user's value or to the merge
    of two dicts. *)
Lemma merge_items_step (key : string) (value : cfg) (items : list (string * cfg))
    (merged m : cfg_dict) :
  merge_items ((key, value) :: items) merged = Ok m →
  ∃ x, merge_items items (cfg_set key x merged) = Ok m
       ∧ match value, cfg_get key merged with
         | CDict u, Some (CDict d) => ∃ mm, _merge_configs (CDict u) d = Ok mm ∧ x = CDict mm
         | _, _ => x = value
         end.
Proof.
  rewrite merge_items_cons.
  destruct value as [| | | | |l|u]; try (intros H; by eexists).
  destruct (cfg_get key merged) as [[| | | | |l|d]|]; try (intros H; by eexists).
  destruct (_merge_configs (CDict u) d) as [mm|e] eqn:Hmm; [| done].
  intros H. exists (CDict mm). split; [done |]. by exists mm.
Qed.

Lemma merge_items_keeps_keys (items : list (string * cfg)) (d m : cfg_dict) (k : string) :
  merge_items items d = Ok m → is_Some (cfg_get k d) → is_Some (cfg_get k m).
Proof.
  revert d. induction items as [|[key value] items IH]; intros d.
  - by intros [= <-].
  - intros (x & Hrest & _)%merge_items_step Hk.
    apply (IH _ Hrest). by apply cfg_set_keeps_keys.
Qed.

Lemma convert_single_location_keeps_keys (merged m : cfg_dict) (k : string) :
  convert_single_location merged = Ok m →
  is_Some (cfg_get k merged) → is_Some (cfg_get k m).
Proof.
  unfold convert_single_location.
  destruct (cfg_get "search" merged) as [search|]; [| by intros [= <-]].
  destruct (key_in "location" search) as [[]|]; [| by intros [= <-] | done].
  destruct (key_in "locations" search) as [[]|]; [by intros [= <-] | | done].
  destruct search as [| | | | | |s]; try done.
  destruct (cfg_get "location" s); [| done].
  intros [= <-]. apply cfg_set_keeps_keys.
Qed.

Lemma _merge_configs_keeps_keys (user_config : cfg) (d m : cfg_dict) (k : string) :
  _merge_configs user_config d = Ok m → is_Some (cfg_get k d) → is_Some (cfg_get k m).
Proof.
  destruct user_config as [| | | | | |items]; try done.
  rewrite _merge_configs_unfold.
  destruct (merge_items items d) as [merged|] eqn:Hloop; [| done].
  intros Hconv Hk. apply (convert_single_location_keeps_keys _ _ _ Hconv).
  by apply (merge_items_keeps_keys _ _ _ _ Hloop).
Qed.

(** What the loop leaves under a key, for a dict (no key twice). *)
Lemma merge_items_lookup (items : list (string * cfg)) (d m : cfg_dict) (k : string) :
  NoDup items.*1 → merge_items items d = Ok m →
  match cfg_get k items, cfg_get k d with
  | None, dv => cfg_get k m = dv
  | Some (CDict u), Some (CDict dd) =>
      ∃ mm, _merge_configs (CDict u) dd = Ok mm ∧ cfg_get k m = Some (CDict mm)
  | Some v, _ => cfg_get k m = Some v
  end.
Proof.
  revert d. induction items as [|[key value] items IH]; intros d.
  - intros _ [= <-]. done.
  - rewrite fmap_cons, NoDup_cons. cbn [fst]. intros [Hnew Hnd].
    intros (x & Hrest & Hx)%merge_items_step.
    specialize (IH _ Hnd Hrest). rewrite cfg_get_set in IH.
    cbn [cfg_get]. destruct (decide (k = key)) as [->|Hne].
    + rewrite (cfg_get_None _ _ Hnew) in IH.
      destruct value as [| | | | |l|u]; try (by subst x).
      destruct (cfg_get key d) as [[| | | | |l|dd]|]; try (by subst x).
      destruct Hx as (mm & Hmm & ->). by exists mm.
    + exact IH.
Qed.

(** When the value under 'search' is a dict that has 'locations', or is
    missing, the last step changes nothing. *)
Lemma convert_single_location_with_locations (merged : cfg_dict) (s : cfg_dict) :
  cfg_get "search" merged = Some (CDict s) → is_Some (cfg_get "locations" s) →
  convert_single_location merged = Ok merged.
Proof.
  intros Hs Hlocs. unfold convert_single_location. rewrite Hs. cbn [key_in].
  rewrite (bool_decide_true (is_Some (cfg_get "locations" s))) by done.
  by destruct (bool_decide (is_Some (cfg_get "location" s))).
Qed.

(** The last step leaves a value under 'search' that is not a dict as it
    is, when it does not raise. *)
Lemma convert_single_location_not_dict (merged m : cfg_dict) (search : cfg) :
  cfg_get "search" merged = Some search →
  (∀ s, search ≠ CDict s) →
  convert_single_location merged = Ok m → m = merged.
Proof.
  intros Hs Hnd. unfold convert_single_location. rewrite Hs.
  destruct (key_in "location" search) as [[]|]; [| by intros [= <-] | done].
  destruct (key_in "locations" search) as [[]|]; [by intros [= <-] | | done].
  destruct search as [| | | | | |s]; try done. by destruct (Hnd s).
Qed.

Lemma convert_single_location_other_keys (merged m : cfg_dict) (k : string) :
  k ≠ "search" →
  convert_single_location merged = Ok m → cfg_get k m = cfg_get k merged.
Proof.
  intros Hne. unfold convert_single_location.
  destruct (cfg_get "search" merged) as [search|]; [| by intros [= <-]].
  destruct (key_in "location" search) as [[]|]; [| by intros [= <-] | done].
  destruct (key_in "locations" search) as [[]|]; [by intros [= <-] | | done].
  destruct search as [| | | | | |s]; try done.
  destruct (cfg_get "location" s); [| done].
  intros [= <-]. rewrite cfg_get_set. by destruct (decide (k = "search")).
Qed.

(** The loop and the last step together, when the default under 'search'
    is a dict with 'locations' or the key is another one. *)
Lemma _merge_configs_lookup (items : list (string * cfg)) (d m : cfg_dict) (k : string) :
  NoDup items.*1 →
  (k ≠ "search"
   ∨ ∃ ds, cfg_get "search" d = Some (CDict ds) ∧ is_Some (cfg_get "locations" ds)) →
  _merge_configs (CDict items) d = Ok m →
  match cfg_get k items, cfg_get k d with
  | None, dv => cfg_get k m = dv
  | Some (CDict u), Some (CDict dd) =>
      ∃ mm, _merge_configs (CDict u) dd = Ok mm ∧ cfg_get k m = Some (CDict mm)
  | Some v, _ => cfg_get k m = Some v
  end.
Proof.
  intros Hnd Hk. rewrite _merge_configs_unfold.
  destruct (merge_items items d) as [merged|] eqn:Hloop; [| done].
  intros Hconv.
  assert (cfg_get k m = cfg_get k merged) as ->; [| by apply merge_items_lookup].
  destruct (decide (k = "search")) as [->|Hne];
    [| by apply convert_single_location_other_keys].
  destruct Hk as [? | (ds & Hds & Hlocs)]; [done |].
  pose proof (merge_items_lookup _ _ _ "search" Hnd Hloop) as Hlook.
  rewrite Hds in Hlook.
  destruct (cfg_get "search" merged) as [search|] eqn:Hsearch.
  - assert ((∃ s, search = CDict s) ∨ ∀ s, search ≠ CDict s) as [[s ->]|Hno]
      by (destruct search; first [by right | left; by eexists]).
    + assert (is_Some (cfg_get "locations" s)) as Hs.
      { destruct (cfg_get "search" items) as [[| | | | | |u]|]; try done.
        - destruct Hlook as (mm & Hmm & [= ->]).
          by apply (_merge_configs_keeps_keys _ _ _ _ Hmm).
        - by injection Hlook as ->. }
      rewrite (convert_single_location_with_locations _ _ Hsearch Hs) in Hconv.
      by injection Hconv as <-.
    + by rewrite (convert_single_location_not_dict _ _ _ Hsearch Hno Hconv).
  - unfold convert_single_location in Hconv. rewrite Hsearch in Hconv.
    by injection Hconv as <-.
Qed.

(** X11. [_merge_configs] on a dict: under every key the result holds the
    default when the user gives nothing, the merge of the two values when
    both are dicts, and the user's value otherwise.  For the key 'search'
    this needs a default that already has 'locations' there, as
    [DEFAULT_CONFIG] has, so that the last step changes nothing. *)
Theorem merge_user_overrides_defaults_fill
    (items : list (string * cfg)) (d m : cfg_dict) (k : string) :
  NoDup items.*1 →
  (k ≠ "search"
   ∨ ∃ ds, cfg_get "search" d = Some (CDict ds) ∧ is_Some (cfg_get "locations" ds)) →
  _merge_configs (CDict items) d = Ok m →
  (cfg_get k items = None → cfg_get k m = cfg_get k d)
  ∧ (∀ u dd, cfg_get k items = Some (CDict u) → cfg_get k d = Some (CDict dd) →
       ∃ mm, _merge_configs (CDict u) dd = Ok mm ∧ cfg_get k m = Some (CDict mm))
  ∧ (∀ v, cfg_get k items = Some v →
       (∀ u, v ≠ CDict u) ∨ (∀ dd, cfg_get k d ≠ Some (CDict dd)) →
       cfg_get k m = Some v).
Proof.
  intros Hnd Hk Hm. pose proof (_merge_configs_lookup _ _ _ k Hnd Hk Hm) as H.
  split; [| split].
  - intros Hnone. by rewrite Hnone in H.
  - intros u dd Hu Hdd. by rewrite Hu, Hdd in H.
  - intros v Hv Hcase. rewrite Hv in H.
    destruct v as [| | | | | |u]; try done.
    destruct (cfg_get k d) as [[| | | | | |dd]|]; try done.
    destruct Hcase as [Hcase | Hcase]; [by destruct (Hcase u) | by destruct (Hcase dd)].
Qed.

(** X12. The single 'location' of the old format is never converted when a
    file is loaded: for a file whose 'search' has 'location' and no
    'locations', the loaded configuration has the default 'locations'
    (Brazil), because the merge has put the default list there before the
    conversion looks. *)
Theorem legacy_location_is_never_converted
    (items us : list (string * cfg)) (loc : cfg) :
  NoDup items.*1 → NoDup us.*1 →
  cfg_get "search" items = Some (CDict us) →
  cfg_get "location" us = Some loc →
  cfg_get "locations" us = None →
  ∃ s, cfg_get "search" (_load_config (Parsed (CDict items))) = Some (CDict s)
       ∧ cfg_get "locations" s
         = Some (CList [CDict [("location", CStr "Brazil"); ("country", CStr "Brazil")]])
       ∧ (∀ m, _merge_configs (CDict items) DEFAULT_CONFIG = Ok m →
            cfg_get "location" s = Some loc).
Proof.
  intros Hnd Hnd' Hsearch Hloc Hlocs.
  unfold _load_config.
  destruct (_merge_configs (CDict items) DEFAULT_CONFIG) as [m|e] eqn:Hm.
  - assert (Hk : "search" ≠ "search"
                 ∨ ∃ ds, cfg_get "search" DEFAULT_CONFIG = Some (CDict ds)
                         ∧ is_Some (cfg_get "locations" ds)).
    { right. eexists. split; [reflexivity |]. by eexists. }
    pose proof (_merge_configs_lookup _ _ _ "search" Hnd Hk Hm) as H.
    rewrite Hsearch in H. cbn [cfg_get DEFAULT_CONFIG] in H.
    rewrite decide_True in H by done.
    destruct H as (mm & Hmm & Hget). exists mm. split; [done |].
    assert (Hne1 : "locations" ≠ "search") by done.
    assert (Hne2 : "location" ≠ "search") by done.
    pose proof (_merge_configs_lookup _ _ _ "locations" Hnd' (or_introl Hne1) Hmm)
      as H1.
    rewrite Hlocs in H1. split; [exact H1 |].
    intros ? _.
    pose proof (_merge_configs_lookup _ _ _ "location" Hnd' (or_introl Hne2) Hmm)
      as H2.
    rewrite Hloc in H2. by destruct loc.
  - eexists. split; [reflexivity |]. split; [reflexivity | done].
Qed.

Lemma not_a_filled_list_false (search : cfg_dict) (k : string) :
  not_a_filled_list search k = false
  ↔ ∃ l, cfg_get k search = Some (CList l) ∧ l ≠ [].
Proof.
  unfold not_a_filled_list. split.
  - destruct (cfg_get k search) as [[| | | | |l|]|]; cbn; try done.
    + by destruct b.
    + by destruct (_ =? _)%Z.
    + by destruct x.
    + by destruct (bool_decide _).
    + destruct l; [done |]. intros _. by eexists.
    + by destruct d.
  - intros (l & -> & Hl). by destruct l.
Qed.

Lemma bad_location_false (loc : cfg) :
  bad_location loc = false
  ↔ ∃ d, loc = CDict d ∧ is_Some (cfg_get "location" d)
                      ∧ is_Some (cfg_get "country" d).
Proof.
  split.
  - destruct loc as [| | | | | |d]; try done. cbn.
    rewrite orb_false_iff, !negb_false_iff, !bool_decide_eq_true.
    intros [??]. by exists d.
  - intros (d & -> & H1 & H2). cbn.
    by rewrite !bool_decide_true.
Qed.

(** The configurations that the validation accepts. *)
Lemma _validate_config_Ok (config : cfg_dict) :
  _validate_config config = Ok tt
  ↔ ∃ search terms locations platforms,
      cfg_get "search" config = Some (CDict search)
      ∧ (cfg_get "terms" search = Some (CList terms) ∧ terms ≠ [])
      ∧ (cfg_get "locations" search = Some (CList locations) ∧ locations ≠ [])
      ∧ Forall (λ loc, ∃ d, loc = CDict d ∧ is_Some (cfg_get "location" d)
                                     ∧ is_Some (cfg_get "country" d)) locations
      ∧ (cfg_get "platforms" search = Some (CList platforms) ∧ platforms ≠ []).
Proof.
  unfold _validate_config. split.
  - destruct (cfg_get "search" config) as [search|] eqn:Hsearch; cbn [default from_option id];
      [| done].
    destruct search as [| | | | | |search]; try done.
    destruct (not_a_filled_list search "terms") eqn:Hterms; [done |].
    destruct (not_a_filled_list search "locations") eqn:Hlocs; [done |].
    apply not_a_filled_list_false in Hterms as (terms & Hterms & ?).
    apply not_a_filled_list_false in Hlocs as (locations & Hlocs & ?).
    rewrite Hlocs.
    destruct (existsb bad_location locations) eqn:Hbad; [done |].
    destruct (not_a_filled_list search "platforms") eqn:Hplat; [done |].
    apply not_a_filled_list_false in Hplat as (platforms & Hplat & ?).
    intros _. exists search, terms, locations, platforms.
    repeat (split; [done |]). split; [| done].
    apply Forall_forall. intros loc Hin. apply bad_location_false.
    destruct (bad_location loc) eqn:Hloc; [| done].
    assert (existsb bad_location locations = true) as Hex; [| congruence].
    apply existsb_exists. exists loc. by rewrite <- list_elem_of_In.
  - intros (search & terms & locations & platforms & -> & Hterms & Hlocs & Hall & Hplat).
    cbn [default from_option id].
    rewrite (proj2 (not_a_filled_list_false search "terms")) by by exists terms.
    rewrite (proj2 (not_a_filled_list_false search "locations")) by by exists locations.
    rewrite (proj2 (not_a_filled_list_false search "platforms")) by by exists platforms.
    destruct Hlocs as [-> _].
    destruct (existsb bad_location locations) eqn:Hbad; [| done].
    apply existsb_exists in Hbad as (loc & Hin & Hbad).
    rewrite <- list_elem_of_In in Hin.
    rewrite Forall_forall in Hall. apply Hall, bad_location_false in Hin. congruence.
Qed.

(** X13. The validation accepts a configuration exactly when 'search' is a
    dict whose 'terms', 'locations' and 'platforms' are lists that are not
    empty and every location is a dict with 'location' and 'country'; what
    it raises is a [ValueError], or an [AttributeError] when 'search' is
    no dict. *)
Theorem validation_accepts_exactly_filled_lists (config : cfg_dict) :
  (_validate_config config = Ok tt
   ↔ ∃ search terms locations platforms,
       cfg_get "search" config = Some (CDict search)
       ∧ (cfg_get "terms" search = Some (CList terms) ∧ terms ≠ [])
       ∧ (cfg_get "locations" search = Some (CList locations) ∧ locations ≠ [])
       ∧ Forall (λ loc, ∃ d, loc = CDict d ∧ is_Some (cfg_get "location" d)
                                      ∧ is_Some (cfg_get "country" d)) locations
       ∧ (cfg_get "platforms" search = Some (CList platforms) ∧ platforms ≠ []))
  ∧ match _validate_config config with
    | Ok _ => True
    | Raise e =>
        (e = AttributeError
         ∧ ∃ search, cfg_get "search" config = Some search ∧ ∀ s, search ≠ CDict s)
        ∨ ∃ msg, e = ValueError msg
    end.
Proof.
  split; [apply _validate_config_Ok |].
  unfold _validate_config.
  destruct (cfg_get "search" config) as [search|] eqn:Hsearch; cbn [default from_option id].
  - destruct search as [| | | | | |search];
      try (left; split; [done |]; eexists; split; [done |]; done).
    destruct (not_a_filled_list search "terms"); [right; by eexists |].
    destruct (not_a_filled_list search "locations") eqn:Hlocs; [right; by eexists |].
    apply not_a_filled_list_false in Hlocs as (locations & -> & ?).
    destruct (existsb bad_location locations); [right; by eexists |].
    destruct (not_a_filled_list search "platforms"); [right; by eexists | done].
  - right. by eexists.
Qed.

Lemma loaded_search_keeps_default_keys (file : config_file) (s : cfg_dict) (k : string) :
  match file with
  | Parsed (CDict items) => NoDup items.*1
  | _ => True
  end →
  cfg_get "search" (_load_config file) = Some (CDict s) →
  (∃ ds, cfg_get "search" DEFAULT_CONFIG = Some (CDict ds) ∧ is_Some (cfg_get k ds)) →
  is_Some (cfg_get k s).
Proof.
  intros Hwf Hs (ds & Hds & Hk).
  assert (cfg_get "search" DEFAULT_CONFIG = Some (CDict s) → is_Some (cfg_get k s))
    as Hdefault.
  { rewrite Hds. by intros [= <-]. }
  destruct file as [| e | user_config]; [by apply Hdefault | by apply Hdefault |].
  unfold _load_config in Hs.
  destruct (_merge_configs user_config DEFAULT_CONFIG) as [m|e] eqn:Hm;
    [| by apply Hdefault].
  destruct user_config as [| | | | | |items]; try done.
  assert (Hright : "search" ≠ "search"
                   ∨ ∃ ds, cfg_get "search" DEFAULT_CONFIG = Some (CDict ds)
                           ∧ is_Some (cfg_get "locations" ds)).
  { right. eexists. split; [reflexivity |]. by eexists. }
  pose proof (_merge_configs_lookup _ _ _ "search" Hwf Hright Hm) as H.
  rewrite Hds, Hs in H.
  destruct (cfg_get "search" items) as [[| | | | | |us]|]; try done.
  - destruct H as (mm & Hmm & [= ->]).
    by apply (_merge_configs_keeps_keys _ _ _ _ Hmm).
  - by injection H as ->.
Qed.

(** X14. After a successful [ConfigLoader(...)], on a file that is a dict
    or on no usable file, [get_search_config] does not raise: its five
    entries are there, and the terms, locations and platforms are lists
    that are not empty. *)
Theorem search_config_is_available_after_init (file : config_file) (config : cfg_dict) :
  match file with
  | Parsed (CDict items) => NoDup items.*1
  | _ => True
  end →
  ConfigLoader file = Ok config →
  ∃ terms locations platforms results_per_term days_old,
    get_search_config config
    = Ok [ ("terms", CList terms); ("locations", CList locations);
           ("platforms", CList platforms);
           ("results_per_term", results_per_term); ("days_old", days_old) ]
    ∧ terms ≠ [] ∧ locations ≠ [] ∧ platforms ≠ [].
Proof.
  intros Hwf. unfold ConfigLoader.
  destruct (_validate_config (_load_config file)) as [[]|] eqn:Hvalid; [| done].
  intros [= <-].
  apply _validate_config_Ok in Hvalid
    as (search & terms & locations & platforms & Hsearch & [Hterms ?] & [Hlocs ?]
        & _ & [Hplat ?]).
  destruct (loaded_search_keeps_default_keys file search "results_per_term" Hwf Hsearch)
    as [results_per_term Hr].
  { eexists. split; [reflexivity |]. by eexists. }
  destruct (loaded_search_keeps_default_keys file search "days_old" Hwf Hsearch)
    as [days_old Hd].
  { eexists. split; [reflexivity |]. by eexists. }
  exists terms, locations, platforms, results_per_term, days_old.
  split; [| done].
  unfold get_search_config, cfg_item. by rewrite Hsearch, Hterms, Hlocs, Hplat, Hr, Hd.
Qed.

Lemma split_on_cons (sep : ascii) (s : string) :
  ∃ word words, split_on sep s = word :: words.
Proof.
  destruct s as [|c s]; cbn; [by eexists _, _ |].
  destruct (decide (c = sep)); [by eexists _, _ |].
  destruct (split_on sep s); by eexists _, _.
Qed.

Lemma split_on_word (sep : ascii) (key rest : string) :
  has_char sep key = false →
  split_on sep (key +:+ String sep rest) = key :: split_on sep rest.
Proof.
  induction key as [|c key IH].
  - intros _. change ("" +:+ String sep rest) with (String sep rest).
    cbn [split_on]. by rewrite decide_True.
  - cbn [has_char]. rewrite orb_false_iff, bool_decide_eq_false. intros [Hne Hkey].
    change (String c key +:+ String sep rest)
      with (String c (key +:+ String sep rest)).
    cbn [split_on]. rewrite decide_False by done. by rewrite IH.
Qed.

Lemma split_on_no_sep (sep : ascii) (key : string) :
  has_char sep key = false → split_on sep key = [key].
Proof.
  induction key as [|c key IH]; cbn [split_on has_char]; [done |].
  rewrite orb_false_iff, bool_decide_eq_false. intros [Hne Hkey].
  rewrite decide_False by done. by rewrite IH.
Qed.

Lemma split_on_dotted (keys : list string) :
  keys ≠ [] → Forall (λ key, has_char "." key = false) keys →
  split_on "." (dotted keys) = keys.
Proof.
  induction keys as [|key keys IH]; [done |]. intros _.
  rewrite Forall_cons. intros [Hkey Hkeys].
  destruct keys as [|key' keys].
  - by apply split_on_no_sep.
  - change (dotted (key :: key' :: keys))
      with (key +:+ String "." (dotted (key' :: keys))).
    rewrite split_on_word by done. by rewrite IH.
Qed.

(** X15. [get] walks the keys of a dotted path one after the other: for
    keys without a dot, the result is the value reached through the nested
    dicts, and the default as soon as a key is missing or the value reached
    is no dict.  The path always has a first key, so [get] never returns
    the configuration itself. *)
Theorem get_walks_the_dotted_path (config : cfg_dict) (keys : list string) (dflt : cfg) :
  keys ≠ [] → Forall (λ key, has_char "." key = false) keys →
  get config (dotted keys) dflt
  = match follow keys (CDict config) with
    | Ok value => value
    | Raise _ => dflt
    end
  ∧ (∀ key inner, keys = [key; inner] →
       get config (dotted keys) dflt
       = match cfg_get key config with
         | Some (CDict d) => default dflt (cfg_get inner d)
         | _ => dflt
         end).
Proof.
  intros Hne Hkeys. unfold get. rewrite split_on_dotted by done.
  split; [done |]. intros key inner ->. cbn.
  destruct (cfg_get key config) as [[| | | | | |d]|]; try done.
  cbn. by destruct (cfg_get inner d).
Qed.

(** X16. A file that is missing, cannot be read or parsed, holds no dict,
    or on which the merge raises, never stops the start: the defaults are
    used and they pass the validation. *)
Theorem unusable_file_gives_the_defaults (file : config_file) :
  (∀ user_config m,
     file = Parsed user_config → _merge_configs user_config DEFAULT_CONFIG ≠ Ok m) →
  ConfigLoader file = Ok DEFAULT_CONFIG.
Proof.
  intros Hbad. unfold ConfigLoader.
  assert (_load_config file = DEFAULT_CONFIG) as ->; [| reflexivity].
  destruct file as [| e | user_config]; [done | done |]. cbn.
  destruct (_merge_configs user_config DEFAULT_CONFIG) as [m|] eqn:Hm; [| done].
  by destruct (Hbad user_config m).
Qed.


End Pipeline.

Arguments World {Env} env heap trace.
Arguments env {Env} w.
Arguments heap {Env} w.
Arguments trace {Env} w.

(** ** A model of the outside, and the theorems on concrete inputs *)

Module Sample.

(** A rendering of finite floats that is good enough for the samples. *)
Definition digits (x : spec_float) : list repr_char := [R0; Rpoint; R0].

(** The samples hold text: every column has dtype object, in which pandas
    stores the values as they are and [None] for a missing one. *)
Definition concat_cell (dfs : list frame) (j : nat) (v : value) : value := v.
Definition na_marker (jobs : frame) (j : nat) : value := VNone.
Definition frame_cell (rs : list dict) (c : string) (v : value) : value := v.

Definition found : frame :=
  Frame ["id"; "title"; "description"]
    [ [VStr "in-1"; VStr "QA Engineer"; VStr "Tests"];
      [VStr "in-1"; VStr "QA Engineer"; VStr "Tests, truncated"] ].

(** The outside is the number of provider calls so far and the seconds
    slept since the last one: the first call finds two postings with one
    identifier, the second is refused, and so is every later call that
    comes less than two seconds after the one before it; the others find
    nothing.  The disk never fails. *)
Record outside := Outside { calls : nat; rested : Z }.

Definition start : outside := Outside 0 0.

Definition scrape_jobs (p : scrape_params) (o : outside)
    : outcome (option frame) * outside :=
  (match calls o with
   | 0 => Ok (Some found)
   | 1 => Raise (ProviderError "429")
   | _ => if (rested o <? 2)%Z then Raise (ProviderError "429") else Ok None
   end, Outside (S (calls o)) 0).

(** A provider that never finds anything. *)
Definition scrape_nothing (p : scrape_params) (o : outside)
    : outcome (option frame) * outside :=
  (Ok (Some (Frame [] [])), Outside (S (calls o)) 0).

(** [time.sleep] refuses a negative length. *)
Definition sleep (seconds : Z) (o : outside) : outcome unit * outside :=
  if (seconds <? 0)%Z
  then (Raise (ValueError "sleep length must be non-negative"), o)
  else (Ok tt, Outside (calls o) (rested o + seconds)).

Definition strftime_now (o : outside) : string := "20260101_120000".
Definition fs_open (path : string) (o : outside) : bool * outside := (true, o).
Definition fs_write (path : string) (body : file_body) (o : outside)
    : bool * outside := (true, o).
Definition fs_stat (path : string) (o : outside) : bool := true.
Definition statistics_error (jobs : frame) : option exn := None.

Definition collector : JobCollector := new_JobCollector "results" 1 [].

Definition terms : list string := ["qa"; "dev"].

Definition locations : list location_config :=
  [ {| location := "Recife"; country := "Brazil" |};
    {| location := "Lisbon"; country := "Portugal" |} ].

Definition two_by_two
    (provider : scrape_params → outside → outcome (option frame) * outside)
    (delay : Z) : outcome bool * world outside :=
  collect_and_export digits concat_cell na_marker frame_cell outside provider
    sleep strftime_now fs_open fs_write fs_stat statistics_error collector
    terms locations ["indeed"] 10 7 "jobs" delay None None (World start [] []).

(** Two batches, the second without an 'id': one identifier twice, one
    posting whose identifier is [None], and two for which [pd.concat] fills
    the identifier with NaN. *)
Definition mixed_ids : list frame :=
  [ Frame ["id"; "title"]
      [ [VStr "a"; VStr "QA"]; [VNone; VStr "Dev"]; [VStr "a"; VStr "QA again"] ];
    Frame ["title"] [ [VStr "Ops"]; [VStr "Ops again"] ] ].

Definition record : dict :=
  [ ("id", VStr "in-1"); ("title", VStr "  "); ("company", VStr "NaN");
    ("min_amount", VFloat S754_nan); ("max_amount", VFloat (S754_infinity false));
    ("is_remote", VBool true) ].

Definition no_description : frame :=
  Frame ["id"; "description"] [[VStr "in-1"; VStr ""]].

Definition shuffled : frame :=
  Frame ["title"; "extra"; "id"; "description"]
    [[VStr "QA"; VInt 1; VStr "in-1"; VStr "Tests"]].



Definition swept : dict :=
  [ ("title", VStr "NaN"); ("min_amount", VFloat S754_nan);
    ("company", VStr "Acme") ].

(** A configuration file in the old format, with one location, and what
    the merge with the defaults makes of it. *)
Definition old_format : list (string * cfg) :=
  [ ("search",
     CDict [("terms", CList [CStr "Dev"]); ("location", CStr "Portugal")]);
    ("output", CDict [("directory", CStr "out")]) ].

Definition merged : cfg_dict :=
  [ ("search",
     CDict [ ("terms", CList [CStr "Dev"]);
             ("locations",
              CList [CDict [("location", CStr "Brazil"); ("country", CStr "Brazil")]]);
             ("platforms", CList [CStr "indeed"]);
             ("results_per_term", CInt 10);
             ("days_old", CInt 7);
             ("location", CStr "Portugal") ]);
    ("output", CDict [("directory", CStr "out"); ("filename", CStr "jobs_dataset")]);
    ("scraping",
     CDict [ ("delay_between_searches", CInt 10); ("verbose", CInt 1);
             ("proxies", CList []) ]);
    ("filters", CDict [("job_type", CNull); ("is_remote", CNull)]) ].

End Sample.

(** The pacing scenario: four combinations, three pauses of two seconds;
    the provider refuses the second call and, rested, answers the others. *)
Example pacing_scenario :
  pauses (trace (Sample.two_by_two Sample.scrape_jobs 2).2) = [2; 2; 2]%Z
  ∧ p_search_term <$> scrapes (trace (Sample.two_by_two Sample.scrape_jobs 2).2)
    = ["qa"; "dev"; "qa"; "dev"]
  ∧ answers_of (trace (Sample.two_by_two Sample.scrape_jobs 2).2)
    = [Ok (Some Sample.found); Raise (ProviderError "429"); Ok None; Ok None]
  ∧ (Sample.two_by_two Sample.scrape_jobs 2).1 = Ok true.
Proof. by vm_compute. Qed.

(** The exhaustion scenario: no records, the run fails and no file is
    written. *)
Example exhaustion_scenario :
  (Sample.two_by_two Sample.scrape_nothing 2).1 = Ok false
  ∧ List.filter is_stage_event (trace (Sample.two_by_two Sample.scrape_nothing 2).2)
    = [].
Proof. by vm_compute. Qed.

(** A negative delay: the first pause raises, and the run ends with its
    exception after one call. *)
Example negative_delay_scenario :
  (Sample.two_by_two Sample.scrape_jobs (-1)).1
  = Raise (ValueError "sleep length must be non-negative")
  ∧ p_search_term <$> scrapes (trace (Sample.two_by_two Sample.scrape_jobs (-1)).2)
    = ["qa"]
  ∧ pauses (trace (Sample.two_by_two Sample.scrape_jobs (-1)).2) = [].
Proof. by vm_compute. Qed.

Lemma consolidation_keeps_first_occurrence_witness :
  NoDup (columns (pd_concat Sample.concat_cell Sample.mixed_ids))
  ∧ rows (pd_concat Sample.concat_cell Sample.mixed_ids)
    = [ [VStr "a"; VStr "QA"]; [VNone; VStr "Dev"]; [VStr "a"; VStr "QA again"];
        [nan; VStr "Ops"]; [nan; VStr "Ops again"] ]
  ∧ rows (unique_jobs_of (pd_concat Sample.concat_cell Sample.mixed_ids))
    = [ [VStr "a"; VStr "QA"]; [VNone; VStr "Dev"]; [nan; VStr "Ops"] ].
Proof.
  assert (H : NoDup (columns (pd_concat Sample.concat_cell Sample.mixed_ids)))
    by (apply (bool_decide_unpack (NoDup _)); vm_compute; exact I).
  split; [exact H |]. split; [vm_compute; reflexivity |].
  destruct (consolidation_keeps_first_occurrence Sample.concat_cell
              Sample.mixed_ids H) as (_ & _ & Hrows & _).
  rewrite Hrows. vm_compute. reflexivity.
Defined.




Lemma clean_record_normalizes_every_field_witness :
  NoDup (dict_keys Sample.record)
  ∧ (dict_keys (_clean_record Sample.digits Sample.record)
     = dict_keys Sample.record
     ∧ ∀ key v,
         dict_get key Sample.record = Some v →
         dict_get key (_clean_record Sample.digits Sample.record)
         = Some (if spec_invalid v then VNone else v)).
Proof.
  assert (H : NoDup (dict_keys Sample.record))
    by (apply (bool_decide_unpack (NoDup _)); vm_compute; exact I).
  split; [exact H |].
  exact (clean_record_normalizes_every_field Sample.digits Sample.record H).
Defined.

(** C5 as stated fails: a table that becomes empty in cleaning and no table
    at all give the same answer. *)
Lemma clean_no_data_not_distinguishable :
  frame_empty Sample.no_description = false
  ∧ clean Sample.digits Sample.na_marker Sample.frame_cell
      (Some Sample.no_description)
    = clean Sample.digits Sample.na_marker Sample.frame_cell None.
Proof. by vm_compute. Qed.

Lemma clean_no_data_signal_witness :
  frame_empty
    (_remove_invalid_values Sample.digits Sample.na_marker Sample.frame_cell
       (_filter_columns (drop_without_description Sample.no_description)))
  = true
  ∧ clean Sample.digits Sample.na_marker Sample.frame_cell (Some Sample.no_description) = None.
Proof.
  assert (H : frame_empty
                (_remove_invalid_values Sample.digits Sample.na_marker Sample.frame_cell
                   (_filter_columns
                      (drop_without_description Sample.no_description)))
              = true) by (vm_compute; reflexivity).
  split; [exact H |].
  exact (proj1 (clean_no_data_signal Sample.digits Sample.na_marker Sample.frame_cell
                  Sample.no_description H)).
Defined.

(** C6 as stated fails: the sweep before the JSON file leaves a blank
    string, the cleaner rewrites it to [None]. *)
Lemma export_sweep_keeps_blank_string :
  heap (_clean_for_json Sample.digits Sample.outside 0
          (World Sample.start [ORecords [[("title", VStr "  ")]]] [])).2
  = [ORecords [[("title", VStr "  ")]]]
  ∧ _clean_record Sample.digits [("title", VStr "  ")] = [("title", VNone)].
Proof. by vm_compute. Qed.

Lemma export_sweep_matches_cleaner_except_blank_witness :
  _clean_for_json Sample.digits Sample.outside 0 (World Sample.start [ORecords [Sample.swept]] [])
  = (Ok tt, World Sample.start [ORecords [map_values spec_sweep Sample.swept]] [])
  ∧ _clean_record Sample.digits <$> [Sample.swept]
    = map_values spec_normalize <$> [Sample.swept].
Proof.
  assert (Hl : heap (World Sample.start [ORecords [Sample.swept]] []) !! 0
               = Some (ORecords [Sample.swept])) by reflexivity.
  assert (Hnd : Forall (λ record, NoDup (dict_keys record)) [Sample.swept]).
  { constructor; [| constructor].
    apply (bool_decide_unpack (NoDup _)); vm_compute; exact I. }
  destruct (export_sweep_matches_cleaner_except_blank Sample.digits Sample.outside 0
              [Sample.swept] (World Sample.start [ORecords [Sample.swept]] []) Hl Hnd)
    as (Hsweep & Hclean & _).
  split; [exact Hsweep | exact Hclean].
Defined.



Lemma export_leaves_memory_unchanged_witness :
  ∃ b w',
    export Sample.digits Sample.outside Sample.strftime_now Sample.fs_open Sample.fs_write
      Sample.fs_stat (exporter Sample.collector) (Some 0) "jobs"
      (World Sample.start [ODataFrame Sample.found] [])
    = (Ok b, w')
    ∧ heap w' !! 0 = Some (ODataFrame Sample.found).
Proof.
  assert (Hl : heap (World Sample.start [ODataFrame Sample.found] []) !! 0
               = Some (ODataFrame Sample.found)) by reflexivity.
  destruct (export_leaves_memory_unchanged Sample.digits Sample.outside
              Sample.strftime_now Sample.fs_open Sample.fs_write Sample.fs_stat
              (exporter Sample.collector) 0 Sample.found "jobs"
              (World Sample.start [ODataFrame Sample.found] []) Hl)
    as ((b & w' & Hrun & Hsame & _) & _).
  exists b, w'. split; [exact Hrun | exact Hsame].
Defined.

Lemma clean_columns_in_allow_list_order_witness :
  clean Sample.digits Sample.na_marker Sample.frame_cell (Some Sample.shuffled)
  = Some (Frame ["id"; "title"; "description"]
            [[VStr "in-1"; VStr "QA"; VStr "Tests"]])
  ∧ sublist ["id"; "title"; "description"] ESSENTIAL_COLUMNS.
Proof.
  assert (H : clean Sample.digits Sample.na_marker Sample.frame_cell (Some Sample.shuffled)
              = Some (Frame ["id"; "title"; "description"]
                        [[VStr "in-1"; VStr "QA"; VStr "Tests"]]))
    by (vm_compute; reflexivity).
  split; [exact H |].
  exact (proj1 (proj2 (clean_columns_in_allow_list_order Sample.digits
                         Sample.na_marker Sample.frame_cell Sample.shuffled _ H))).
Defined.

Lemma clean_record_leaves_no_invalid_value_witness :
  NoDup (dict_keys Sample.record)
  ∧ _clean_record Sample.digits (_clean_record Sample.digits Sample.record)
    = _clean_record Sample.digits Sample.record.
Proof.
  assert (H : NoDup (dict_keys Sample.record))
    by (apply (bool_decide_unpack (NoDup _)); vm_compute; exact I).
  split; [exact H |].
  exact (proj2 (clean_record_leaves_no_invalid_value Sample.digits Sample.record H)).
Defined.

Lemma export_sweep_is_no_op_on_cleaned_records_witness :
  _clean_for_json Sample.digits Sample.outside 0
    (World Sample.start [ORecords (_clean_record Sample.digits <$> [Sample.record])] [])
  = (Ok tt, World Sample.start [ORecords (_clean_record Sample.digits <$> [Sample.record])] []).
Proof.
  assert (Hl : heap (World Sample.start
                        [ORecords (_clean_record Sample.digits <$> [Sample.record])] [])
               !! 0
               = Some (ORecords (_clean_record Sample.digits <$> [Sample.record])))
    by reflexivity.
  assert (Hnd : Forall (λ record, NoDup (dict_keys record)) [Sample.record]).
  { constructor; [| constructor].
    apply (bool_decide_unpack (NoDup _)); vm_compute; exact I. }
  exact (export_sweep_is_no_op_on_cleaned_records Sample.digits Sample.outside 0
           [Sample.record]
           (World Sample.start [ORecords (_clean_record Sample.digits <$> [Sample.record])] [])
           Hl Hnd).
Defined.

Lemma json_document_is_faithful_witness :
  encode_document Sample.digits [[("id", VStr "in-1"); ("salary", VNone)]]
  = Ok [[("id", JStr "in-1"); ("salary", JNull)]]
  ∧ Forall2 (λ record entry,
               entry.*1 = dict_keys record
               ∧ Forall2 (λ kv kj,
                            match kj.2 with
                            | JFloat x => finite x = true ∧ kv.2 = VFloat x
                            | JNull => kv.2 = VNone ∨ kv.2 = VNA
                            | JBool b => kv.2 = VBool b
                            | JInt z => kv.2 = VInt z
                            | JStr s => kv.2 = VStr s ∨ kv.2 = VDate s
                            | JArr items =>
                                kv.2 = VList items ∨ kv.2 = VTuple items
                            | JObj items => kv.2 = VDict items
                            end)
                   record entry)
      [[("id", VStr "in-1"); ("salary", VNone)]]
      [[("id", JStr "in-1"); ("salary", JNull)]].
Proof.
  assert (H : encode_document Sample.digits [[("id", VStr "in-1"); ("salary", VNone)]]
              = Ok [[("id", JStr "in-1"); ("salary", JNull)]])
    by (vm_compute; reflexivity).
  split; [exact H |].
  exact (json_document_is_faithful Sample.digits _ _ H).
Defined.

Lemma export_true_means_both_files_written_witness :
  (export Sample.digits Sample.outside Sample.strftime_now Sample.fs_open Sample.fs_write
     Sample.fs_stat (exporter Sample.collector) (Some 0) "jobs"
     (World Sample.start [ODataFrame Sample.found] [])).1
  = Ok true
  ∧ frame_empty Sample.found = false.
Proof.
  assert (Hl : heap (World Sample.start [ODataFrame Sample.found] []) !! 0
               = Some (ODataFrame Sample.found)) by reflexivity.
  assert (Hrun : export Sample.digits Sample.outside Sample.strftime_now Sample.fs_open
                   Sample.fs_write Sample.fs_stat (exporter Sample.collector)
                   (Some 0) "jobs" (World Sample.start [ODataFrame Sample.found] [])
                 = (Ok true,
                    (export Sample.digits Sample.outside Sample.strftime_now Sample.fs_open
                       Sample.fs_write Sample.fs_stat (exporter Sample.collector)
                       (Some 0) "jobs" (World Sample.start [ODataFrame Sample.found] [])).2))
    by (vm_compute; reflexivity).
  split; [by rewrite Hrun |].
  exact (proj1 (export_true_means_both_files_written Sample.digits Sample.outside
                  Sample.strftime_now Sample.fs_open Sample.fs_write Sample.fs_stat
                  (exporter Sample.collector) 0 Sample.found "jobs"
                  (World Sample.start [ODataFrame Sample.found] []) _ Hl Hrun)).
Defined.

Lemma clean_keeps_described_rows_and_valid_cells_witness :
  NoDup (columns Sample.shuffled)
  ∧ clean Sample.digits Sample.na_marker Sample.frame_cell (Some Sample.shuffled)
    = Some (Frame ["id"; "title"; "description"]
              [[VStr "in-1"; VStr "QA"; VStr "Tests"]])
  ∧ ∃ records,
      Frame ["id"; "title"; "description"] [[VStr "in-1"; VStr "QA"; VStr "Tests"]]
      = DataFrame_of_records Sample.frame_cell records
      ∧ Forall2 (λ row record,
                   Forall2 (λ c (item : string * value),
                              item.1 = c
                              ∧ spec_invalid item.2 = false
                              ∧ (isna (cell_of Sample.shuffled row c) = false →
                                 item.2
                                 = spec_normalize (cell_of Sample.shuffled row c)))
                     ["id"; "title"; "description"] record)
          [[VStr "QA"; VInt 1; VStr "in-1"; VStr "Tests"]] records.
Proof.
  assert (Hnd : NoDup (columns Sample.shuffled))
    by (apply (bool_decide_unpack (NoDup _)); vm_compute; exact I).
  assert (H : clean Sample.digits Sample.na_marker Sample.frame_cell
                (Some Sample.shuffled)
              = Some (Frame ["id"; "title"; "description"]
                        [[VStr "in-1"; VStr "QA"; VStr "Tests"]]))
    by (vm_compute; reflexivity).
  split; [exact Hnd |]. split; [exact H |].
  destruct (clean_keeps_described_rows_and_valid_cells Sample.digits
              Sample.na_marker Sample.frame_cell Sample.shuffled _ Hnd H)
    as (records & Hdf & _ & Hrecords).
  exists records. split; [exact Hdf | exact Hrecords].
Defined.

Lemma merge_user_overrides_defaults_fill_witness :
  _merge_configs (CDict Sample.old_format) DEFAULT_CONFIG = Ok Sample.merged
  ∧ cfg_get "filters" Sample.merged = cfg_get "filters" DEFAULT_CONFIG
  ∧ ∃ mm,
      _merge_configs (CDict [("directory", CStr "out")])
        [("directory", CStr "results"); ("filename", CStr "jobs_dataset")]
      = Ok mm
      ∧ cfg_get "output" Sample.merged = Some (CDict mm).
Proof.
  assert (Hnd : NoDup Sample.old_format.*1)
    by (apply (bool_decide_unpack (NoDup _)); vm_compute; exact I).
  assert (Hfilters :
            "filters" ≠ "search"
            ∨ ∃ ds, cfg_get "search" DEFAULT_CONFIG = Some (CDict ds)
                    ∧ is_Some (cfg_get "locations" ds)) by (left; discriminate).
  assert (Houtput :
            "output" ≠ "search"
            ∨ ∃ ds, cfg_get "search" DEFAULT_CONFIG = Some (CDict ds)
                    ∧ is_Some (cfg_get "locations" ds)) by (left; discriminate).
  assert (Hm : _merge_configs (CDict Sample.old_format) DEFAULT_CONFIG
               = Ok Sample.merged) by (vm_compute; reflexivity).
  split; [exact Hm |]. split.
  - exact (proj1 (@merge_user_overrides_defaults_fill Sample.old_format
                    DEFAULT_CONFIG Sample.merged "filters" Hnd Hfilters Hm)
             eq_refl).
  - exact (proj1 (proj2 (@merge_user_overrides_defaults_fill Sample.old_format
                           DEFAULT_CONFIG Sample.merged "output" Hnd Houtput Hm))
             _ _ eq_refl eq_refl).
Defined.

Lemma legacy_location_is_never_converted_witness :
  ∃ s, cfg_get "search" (_load_config (Parsed (CDict Sample.old_format)))
       = Some (CDict s)
       ∧ cfg_get "locations" s
         = Some (CList [CDict [("location", CStr "Brazil"); ("country", CStr "Brazil")]]).
Proof.
  assert (Hnd : NoDup Sample.old_format.*1)
    by (apply (bool_decide_unpack (NoDup _)); vm_compute; exact I).
  assert (Hnd' : NoDup [("terms", CList [CStr "Dev"]); ("location", CStr "Portugal")].*1)
    by (apply (bool_decide_unpack (NoDup _)); vm_compute; exact I).
  destruct (@legacy_location_is_never_converted Sample.old_format
              [("terms", CList [CStr "Dev"]); ("location", CStr "Portugal")]
              (CStr "Portugal") Hnd Hnd' eq_refl eq_refl eq_refl)
    as (s & Hs & Hlocs & _).
  exists s. split; [exact Hs | exact Hlocs].
Defined.

Lemma search_config_is_available_after_init_witness :
  ConfigLoader (Parsed (CDict Sample.old_format)) = Ok Sample.merged
  ∧ ∃ terms locations platforms results_per_term days_old,
      get_search_config Sample.merged
      = Ok [ ("terms", CList terms); ("locations", CList locations);
             ("platforms", CList platforms);
             ("results_per_term", results_per_term); ("days_old", days_old) ]
      ∧ terms ≠ [] ∧ locations ≠ [] ∧ platforms ≠ [].
Proof.
  assert (Hnd : NoDup Sample.old_format.*1)
    by (apply (bool_decide_unpack (NoDup _)); vm_compute; exact I).
  assert (H : ConfigLoader (Parsed (CDict Sample.old_format)) = Ok Sample.merged)
    by (vm_compute; reflexivity).
  split; [exact H |].
  exact (search_config_is_available_after_init (Parsed (CDict Sample.old_format))
           Sample.merged Hnd H).
Defined.

Lemma get_walks_the_dotted_path_witness :
  get DEFAULT_CONFIG "search.days_old" CNull
  = match follow ["search"; "days_old"] (CDict DEFAULT_CONFIG) with
    | Ok value => value
    | Raise _ => CNull
    end.
Proof.
  assert (Hne : ["search"; "days_old"] ≠ []) by discriminate.
  assert (Hkeys : Forall (λ key, has_char "." key = false) ["search"; "days_old"]).
  { constructor; [reflexivity |]. constructor; [reflexivity |]. constructor. }
  exact (proj1 (get_walks_the_dotted_path DEFAULT_CONFIG ["search"; "days_old"]
                  CNull Hne Hkeys)).
Defined.

Lemma unusable_file_gives_the_defaults_witness :
  ConfigLoader (Parsed (CDict [("search", CStr "location")])) = Ok DEFAULT_CONFIG.
Proof.
  assert (H : ∀ user_config m,
            Parsed (CDict [("search", CStr "location")]) = Parsed user_config →
            _merge_configs user_config DEFAULT_CONFIG ≠ Ok m).
  { intros user_config m [= <-]. vm_compute. discriminate. }
  exact (unusable_file_gives_the_defaults
           (Parsed (CDict [("search", CStr "location")])) H).
Defined.
